(** * DecoTV: virtual grid, image preload hook and TVBox subscription merge

    A shallow embedding of
    - [VirtualGridInner] and its [Cell] renderer (the grid component),
    - [useImagePreload] (src/hooks/useImagePreload.ts),
    - [sanitizeKey], [mergeTVBoxSites], [removeTVBoxSites] (the TVBox module),
    - [useSourceFilter] (src/hooks/useSourceFilter.ts): the category filter,
      the request URL and the state updates of its callbacks,
    together with the properties the design document states about them and
    further properties read off the code. *)

From Stdlib Require Import ZArith QArith Qround String Ascii List Bool Lia.
From stdpp Require Import gmap strings list.

Local Open Scope Z_scope.

(* ===================================================================== *)
(** ** JavaScript values used by the components *)
(* ===================================================================== *)

Module JS.

(** A JavaScript number as the grid arithmetic produces it: a rational, or
    one of the three non-finite values.  Operands are integers far below
    2^53 (array lengths, column counts, pixel sizes), where the quotient of
    two integers is rounded by less than the distance to the next integer,
    so [Math.ceil] of the double equals the ceiling of the exact quotient.
    The sign of zero is not tracked. *)
Inductive number : Type :=
| Finite (q : Q)
| PosInfinity
| NegInfinity
| NaN.

Definition of_int (z : Z) : number := Finite (inject_Z z).

(** [a / b] on integer operands: division by zero does not throw. *)
Definition div (a b : Z) : number :=
  if b =? 0 then
    if a =? 0 then NaN else if 0 <? a then PosInfinity else NegInfinity
  else Finite (inject_Z a / inject_Z b)%Q.

(** [Math.ceil] *)
Definition Math_ceil (x : number) : number :=
  match x with
  | Finite q => Finite (inject_Z (Qceiling q))
  | PosInfinity => PosInfinity
  | NegInfinity => NegInfinity
  | NaN => NaN
  end.

Definition is_finite (x : number) : bool :=
  match x with Finite _ => true | _ => false end.

(** [x + y] on numbers: [NaN] is absorbing and the two infinities cancel to
    [NaN].  The finite case keeps the exact sum, which is the double the
    addition returns whenever that sum is representable, as it is for
    integers below 2^53. *)
Definition add (x y : number) : number :=
  match x, y with
  | NaN, _ | _, NaN => NaN
  | PosInfinity, NegInfinity | NegInfinity, PosInfinity => NaN
  | PosInfinity, _ | _, PosInfinity => PosInfinity
  | NegInfinity, _ | _, NegInfinity => NegInfinity
  | Finite a, Finite b => Finite (a + b)%Q
  end.

(** [Number(s)] for a string [s] (the StringToNumber grammar of the
    language), which the components use but do not define. *)
Class StringToNumber : Type := Number_of_string : string -> number.

(** [arr[i]] for an integer index: [undefined] (here [None]) out of range. *)
Definition array_get {A : Type} (arr : list A) (i : Z) : option A :=
  if i <? 0 then None else arr !! Z.to_nat i.

(** [arr.length] *)
Definition length {A : Type} (arr : list A) : Z := Z.of_nat (List.length arr).

(** [arr.slice(0, end)] for an integer [end]: a negative [end] counts from
    the end of the array. *)
Definition slice0 {A : Type} (arr : list A) (end_ : Z) : list A :=
  if end_ <? 0 then take (Z.to_nat (Z.max (length arr + end_) 0)) arr
  else take (Z.to_nat end_) arr.

(** [p] holds of every character of [s]. *)
Fixpoint every_char (p : ascii -> bool) (s : string) : bool :=
  match s with
  | EmptyString => true
  | String c s' => p c && every_char p s'
  end.

End JS.

(* ===================================================================== *)
(** ** VirtualGrid *)
(* ===================================================================== *)

Module VirtualGrid.

(** The value of a key of a style object: [number | string]. *)
Inductive CssValue : Type :=
| CssNumber (x : JS.number)
| CssString (s : string).

(** The style object the grid hands to a cell ([React.CSSProperties]): every
    key is optional.  The five keys the cell writes are fields of their own,
    [otherKeys] holds the remaining keys ([position], [transform], ...) with
    their values. *)
Record CSSProperties : Type := mkStyle {
  left : option CssValue;
  top : option CssValue;
  width : option CssValue;
  height : option CssValue;
  padding : option CssValue;
  otherKeys : list (string * CssValue);
}.

(** [Number(v)] for the value of a style key: [NaN] for a key that is absent
    ([undefined]), the number itself for a number. *)
Definition Number `{JS.StringToNumber} (v : option CssValue) : JS.number :=
  match v with
  | None => JS.NaN
  | Some (CssNumber x) => x
  | Some (CssString s) => JS.Number_of_string s
  end.

(** What [useResponsiveGrid] returns. *)
Record ResponsiveGrid : Type := mkLayout {
  columnCount : Z;
  itemWidth : Z;
  itemHeight : Z;
  containerWidth : Z;
  gap : Z;
}.

(** The [height] prop: [number | string]. *)
Inductive HeightProp : Type :=
| HeightPx (px : Z)
| HeightCss (css : string).

Definition DEFAULT_HEIGHT : HeightProp := HeightCss "calc(100vh - 280px)".
Definition DEFAULT_PRIORITY_COUNT : Z := 12.

(** [const rowCount = Math.ceil(items.length / columnCount)] *)
Definition rowCount (itemCount columnCount : Z) : JS.number :=
  JS.Math_ceil (JS.div itemCount columnCount).

(** [const gridWidth = columnCount * itemWidth + (columnCount - 1) * gap] *)
Definition gridWidth (g : ResponsiveGrid) : Z :=
  columnCount g * itemWidth g + (columnCount g - 1) * gap g.

(** [containerHeight]: the numeric height, or 600 for a CSS string. *)
Definition containerHeight (h : HeightProp) : Z :=
  match h with HeightPx px => px | HeightCss _ => 600 end.

Section Component.

(** The item type [T] and what the caller's [renderItem] returns. *)
Context {T Node : Type}.

(** The conversion [Number] applies to a style value that is a string. *)
Context {conv : JS.StringToNumber}.

(** One invocation of [renderItem(item, priority, index)]. *)
Record RenderCall : Type := mkCall {
  call_item : option T;
  call_priority : bool;
  call_index : Z;
}.

(** A rendered cell: [<div style={...}>{child}</div>]. *)
Record CellElement : Type := mkCell {
  cell_style : CSSProperties;
  cell_child : option Node;
}.

(** [adjustedStyle]: the spread [...style] keeps every key of [style], and
    the five keys written after it replace what [style] had there. *)
Definition adjustedStyle (gap columnIndex rowIndex : Z) (style : CSSProperties)
  : CSSProperties :=
  {| left := Some (CssNumber (JS.add (Number (left style)) (JS.of_int (columnIndex * gap))));
     top := Some (CssNumber (JS.add (Number (top style)) (JS.of_int (rowIndex * gap))));
     width := Some (CssNumber (Number (width style)));
     height := Some (CssNumber (Number (height style)));
     padding := Some (CssNumber (JS.of_int 0));
     otherKeys := otherKeys style |}.

(** The [Cell] function built by [useMemo]; it closes over [items],
    [columnCount], [priorityCount], [gap] and [renderItem].  The second
    component of the result is the list of [renderItem] invocations the
    call performed. *)
Definition Cell (items : list T) (columnCount priorityCount gap : Z)
    (renderItem : option T -> bool -> Z -> Node)
    (columnIndex rowIndex : Z) (style : CSSProperties)
  : CellElement * list RenderCall :=
  let index := rowIndex * columnCount + columnIndex in
  if JS.length items <=? index then
    ({| cell_style := style; cell_child := None |}, [])
  else
    let item := JS.array_get items index in
    let priority := index <? priorityCount in
    ({| cell_style := adjustedStyle gap columnIndex rowIndex style;
        cell_child := Some (renderItem item priority index) |},
     [ {| call_item := item; call_priority := priority; call_index := index |} ]).

(** The props passed to the react-window [Grid]. *)
Record GridProps : Type := mkGrid {
  grid_columnCount : Z;
  grid_columnWidth : Z;
  grid_rowCount : JS.number;
  grid_rowHeight : Z;
  grid_defaultWidth : Z;
  grid_defaultHeight : Z;
  grid_cellComponent : Z -> Z -> CSSProperties -> CellElement * list RenderCall;
  grid_overscanCount : Z;
  grid_style_height : Z;
  grid_style_width : Z;
}.

(** The [height] entry of a container's style. *)
Inductive StyleHeight : Type :=
| SHpx (px : Z)
| SHcss (css : string)
| SHundefined.

(** The three things [VirtualGridInner] can return. *)
Inductive View : Type :=
| EmptyState (className : string) (h : StyleHeight) (text : string)
| LoadingContainer (className : string) (h : StyleHeight)
| GridContainer (className : string) (h : StyleHeight) (grid : option GridProps).

Record VirtualGridProps : Type := mkProps {
  items : list T;
  renderItem : option T -> bool -> Z -> Node;
  height_prop : option HeightProp;
  className : option string;
  priorityCount : option Z;
}.

(** [VirtualGridInner]: [gridLoaded] says whether the dynamic import of
    react-window has resolved ([GridComponent] is not [null]); [g] is the
    result of [useResponsiveGrid]. *)
Definition VirtualGridInner (props : VirtualGridProps) (gridLoaded : bool)
    (g : ResponsiveGrid) : View :=
  let height := default DEFAULT_HEIGHT (height_prop props) in
  let className := default ""%string (className props) in
  let priorityCount := default DEFAULT_PRIORITY_COUNT (priorityCount props) in
  let rowCount := rowCount (JS.length (items props)) (columnCount g) in
  let containerHeight := containerHeight height in
  let gridWidth := gridWidth g in
  let cellComponent :=
    Cell (items props) (columnCount g) priorityCount (gap g) (renderItem props) in
  if JS.length (items props) =? 0 then
    EmptyState
      ("flex items-center justify-center text-gray-500 dark:text-gray-400 " ++ className)
      (SHpx (match height with HeightPx px => px | HeightCss _ => 200 end))
      "暂无数据"
  else if negb gridLoaded then
    LoadingContainer ("virtual-grid-container " ++ className)
      (match height with HeightCss css => SHcss css | HeightPx _ => SHpx containerHeight end)
  else
    GridContainer ("virtual-grid-container " ++ className)
      (match height with HeightCss css => SHcss css | HeightPx _ => SHundefined end)
      (if 0 <? containerWidth g then
         Some {| grid_columnCount := columnCount g;
                 grid_columnWidth := itemWidth g;
                 grid_rowCount := rowCount;
                 grid_rowHeight := itemHeight g;
                 grid_defaultWidth := gridWidth;
                 grid_defaultHeight := containerHeight;
                 grid_cellComponent := cellComponent;
                 grid_overscanCount := 2;
                 grid_style_height := containerHeight;
                 grid_style_width := gridWidth |}
       else None).

End Component.

Arguments RenderCall : clear implicits.
Arguments CellElement : clear implicits.
Arguments GridProps : clear implicits.
Arguments View : clear implicits.
Arguments VirtualGridProps : clear implicits.

(** Modelled from the spec: the react-window [Grid] (an npm dependency, not
    part of the sources) is the "underlying fixed-size positioning scheme";
    the raw style it computes for cell [(rowIndex, columnIndex)] places the
    cell at a multiple of the fixed cell size and "does not include
    inter-cell gaps". *)
Definition fixedSizeStyle (columnWidth rowHeight columnIndex rowIndex : Z)
  : CSSProperties :=
  {| left := Some (CssNumber (JS.of_int (columnIndex * columnWidth)));
     top := Some (CssNumber (JS.of_int (rowIndex * rowHeight)));
     width := Some (CssNumber (JS.of_int columnWidth));
     height := Some (CssNumber (JS.of_int rowHeight));
     padding := None;
     otherKeys := [] |}.

(** A conversion for the examples, in which every style value is a number
    and no string is ever converted. *)
Definition noStrings : JS.StringToNumber := fun _ => JS.NaN.

(** *** Arithmetic of style values *)

Lemma add_of_int (a b : Z) :
  JS.add (JS.of_int a) (JS.of_int b) = JS.of_int (a + b).
Proof.
  unfold JS.add, JS.of_int, inject_Z, Qplus. simpl.
  by rewrite !Z.mul_1_r.
Qed.

Lemma of_int_inj (a b : Z) : JS.of_int a = JS.of_int b -> a = b.
Proof. unfold JS.of_int, inject_Z. by intros [= ->]. Qed.

(** *** Arithmetic of [rowCount] *)

Lemma Qceiling_div (n c : Z) :
  0 < c -> Qceiling (inject_Z n / inject_Z c) = - ((- n) / c).
Proof.
  intros Hc. destruct c as [|p|p]; try lia.
  unfold Qceiling, Qfloor, Qdiv, Qinv, Qmult, Qopp, inject_Z. simpl.
  rewrite Z.mul_1_r. reflexivity.
Qed.

Lemma neg_div_neg_bounds (n c : Z) :
  0 < c -> (- ((- n) / c) - 1) * c < n <= - ((- n) / c) * c.
Proof.
  intros Hc.
  pose proof (Z.div_mod (- n) c ltac:(lia)) as Hdm.
  pose proof (Z.mod_pos_bound (- n) c Hc) as Hb.
  nia.
Qed.

Lemma rowCount_pos_columns (n c : Z) :
  0 < c -> rowCount n c = JS.of_int (- ((- n) / c)).
Proof.
  intros Hc. unfold rowCount, JS.div.
  destruct (Z.eqb_spec c 0) as [->|_]; [lia|].
  simpl. rewrite Qceiling_div by exact Hc. reflexivity.
Qed.

Lemma rowCount_zero_columns (n : Z) :
  0 < n -> rowCount n 0 = JS.PosInfinity.
Proof.
  intros Hn. unfold rowCount, JS.div. simpl.
  destruct (Z.eqb_spec n 0) as [->|_]; [lia|].
  destruct (Z.ltb_spec 0 n); [reflexivity|lia].
Qed.

(** C5.  For every item count [n >= 0] and column count [c >= 1] the derived
    [rowCount] is the integer [ceil(n / c)]: the unique integer [r] with
    [(r - 1) * c < n <= r * c]. *)
Theorem rowCount_is_ceiling (n c : Z) :
  0 <= n -> 1 <= c ->
  exists r : Z,
    rowCount n c = JS.of_int r /\ (r - 1) * c < n <= r * c /\
    (forall r' : Z, (r' - 1) * c < n <= r' * c -> r' = r).
Proof.
  intros Hn Hc. exists (- ((- n) / c)).
  split; [apply rowCount_pos_columns; lia|].
  pose proof (neg_div_neg_bounds n c ltac:(lia)) as Hb.
  split; [exact Hb|].
  intros r' Hr'. nia.
Qed.

Lemma rowCount_is_ceiling_witness :
  exists r : Z, rowCount 7 3 = JS.of_int r /\ (r - 1) * 3 < 7 <= r * 3 /\
    (forall r' : Z, (r' - 1) * 3 < 7 <= r' * 3 -> r' = r).
Proof. apply (rowCount_is_ceiling 7 3); lia. Defined.

(** C1, as the design document states it, fails: the controller applies no
    clamp.  With five items and a column count of zero the division is by
    zero and [rowCount] is [Infinity], not the value a clamp to 1 would give;
    the grid is handed the column count 0 and the row count [Infinity]. *)
Lemma rowCount_not_clamped :
  rowCount 5 0 = JS.PosInfinity /\
  rowCount 5 0 <> rowCount 5 (Z.max 1 0) /\
  JS.is_finite (rowCount 5 0) = false /\
  exists cn h grid,
    VirtualGridInner (conv := noStrings)
      {| items := [1; 2; 3; 4; 5]%nat; renderItem := fun _ p _ => p;
         height_prop := None; className := None; priorityCount := None |}
      true
      {| columnCount := 0; itemWidth := 100; itemHeight := 150;
         containerWidth := 320; gap := 16 |}
    = GridContainer cn h (Some grid) /\
    grid_columnCount grid = 0 /\
    grid_rowCount grid = JS.PosInfinity.
Proof.
  split; [reflexivity|]. split; [discriminate|]. split; [reflexivity|].
  do 3 eexists. split; [reflexivity|]. split; reflexivity.
Qed.

(** *** The cell renderer *)

Section CellProperties.

Context {T Node : Type} {conv : JS.StringToNumber}.
Implicit Types (items : list T) (renderItem : option T -> bool -> Z -> Node).
Implicit Types (style : CSSProperties).

Lemma Cell_out_of_bounds items cc pc gap renderItem col row style :
  JS.length items <= row * cc + col ->
  Cell items cc pc gap renderItem col row style =
    ({| cell_style := style; cell_child := None |}, []).
Proof.
  intros Hge. unfold Cell.
  destruct (Z.leb_spec (JS.length items) (row * cc + col)); [reflexivity|lia].
Qed.

Lemma Cell_in_bounds items cc pc gap renderItem col row style :
  row * cc + col < JS.length items ->
  Cell items cc pc gap renderItem col row style =
    let index := row * cc + col in
    ({| cell_style := adjustedStyle gap col row style;
        cell_child :=
          Some (renderItem (JS.array_get items index) (index <? pc) index) |},
     [ {| call_item := JS.array_get items index;
          call_priority := index <? pc;
          call_index := index |} ]).
Proof.
  intros Hlt. unfold Cell.
  destruct (Z.leb_spec (JS.length items) (row * cc + col)); [lia|reflexivity].
Qed.

Lemma array_get_in_range items (i : Z) :
  0 <= i < JS.length items -> is_Some (JS.array_get items i).
Proof.
  intros [Hlo Hhi]. unfold JS.array_get, JS.length in *.
  destruct (Z.ltb_spec i 0); [lia|].
  apply lookup_lt_is_Some. lia.
Qed.

(** C6.  A cell whose linear index [rowIndex * columnCount + columnIndex] is
    at or beyond the item count renders without any call of [renderItem]:
    the result is a childless [div] carrying the style (hence the width and
    height) the grid supplied for that cell. *)
Theorem out_of_bounds_cell_is_placeholder
    items cc pc gap renderItem col row style :
  JS.length items <= row * cc + col ->
  let out := Cell items cc pc gap renderItem col row style in
  snd out = [] /\
  cell_child (fst out) = None /\
  cell_style (fst out) = style /\
  width (cell_style (fst out)) = width style /\
  height (cell_style (fst out)) = height style.
Proof.
  intros Hge out. subst out.
  rewrite Cell_out_of_bounds by exact Hge. simpl. auto.
Qed.

(** A coordinate the grid does not supply in [left] or [top] (it positions
    the cell by a [transform], say) comes out of an item cell as [NaN]. *)
Lemma Cell_missing_coordinate items cc pc gap renderItem col row style :
  row * cc + col < JS.length items ->
  let rendered := cell_style (fst (Cell items cc pc gap renderItem col row style)) in
  (left style = None -> left rendered = Some (CssNumber JS.NaN)) /\
  (top style = None -> top rendered = Some (CssNumber JS.NaN)).
Proof.
  intros Hlt rendered. subst rendered. rewrite Cell_in_bounds by exact Hlt.
  simpl. split; intros ->; reflexivity.
Qed.


(** C8 (cell level).  A cell showing the item at linear index [i] calls
    [renderItem] exactly once, with [items[i]], [priority = (i < priorityCount)]
    and [i]. *)
Lemma Cell_priority items cc pc gap renderItem col row style :
  let i := row * cc + col in
  0 <= i < JS.length items ->
  exists item,
    items !! Z.to_nat i = Some item /\
    snd (Cell items cc pc gap renderItem col row style) =
      [ {| call_item := Some item; call_priority := i <? pc; call_index := i |} ] /\
    cell_child (fst (Cell items cc pc gap renderItem col row style)) =
      Some (renderItem (Some item) (i <? pc) i).
Proof.
  intros i Hi. subst i.
  destruct (array_get_in_range items _ Hi) as [item Hitem].
  exists item. rewrite Cell_in_bounds by lia. simpl. rewrite Hitem.
  split; [|split; reflexivity].
  unfold JS.array_get in Hitem.
  destruct (Z.ltb_spec (row * cc + col) 0); [lia|exact Hitem].
Qed.

End CellProperties.



Lemma out_of_bounds_cell_is_placeholder_witness :
  let out := Cell (conv := noStrings) [10; 20; 30]%nat 2 12 16 (fun _ _ i => i) 1 1
               (fixedSizeStyle 100 150 1 1) in
  snd out = [] /\ cell_child (fst out) = None.
Proof.
  pose proof (out_of_bounds_cell_is_placeholder (conv := noStrings) [10; 20; 30]%nat
                2 12 16 (fun _ _ i => i) 1 1 (fixedSizeStyle 100 150 1 1)) as H.
  destruct H as (H1 & H2 & _); [vm_compute; discriminate|].
  split; assumption.
Defined.

(** *** The controller *)

Section ControllerProperties.

Context {T Node : Type} {conv : JS.StringToNumber}.
Implicit Types (props : VirtualGridProps T Node) (g : ResponsiveGrid).

Lemma VirtualGridInner_populated props g :
  JS.length (items props) <> 0 -> 0 < containerWidth g ->
  exists cn h grid,
    VirtualGridInner props true g = GridContainer cn h (Some grid) /\
    grid_columnCount grid = columnCount g /\
    grid_rowCount grid = rowCount (JS.length (items props)) (columnCount g) /\
    grid_cellComponent grid =
      Cell (items props) (columnCount g)
        (default 12 (priorityCount props)) (gap g) (renderItem props).
Proof.
  intros Hn Hw. unfold VirtualGridInner.
  destruct (Z.eqb_spec (JS.length (items props)) 0) as [|_]; [contradiction|].
  simpl. destruct (Z.ltb_spec 0 (containerWidth g)); [|lia].
  do 3 eexists. split; [reflexivity|]. simpl. auto.
Qed.

Lemma rowCount_negative_columns (n c : Z) :
  0 < n -> c < 0 -> exists r : Z, r <= 0 /\ rowCount n c = JS.of_int r.
Proof.
  intros Hn Hc. destruct c as [|p|p]; try lia.
  exists (- (n / Z.pos p)). split.
  - pose proof (Z.div_pos n (Z.pos p) ltac:(lia) ltac:(lia)). lia.
  - unfold rowCount, JS.div, JS.Math_ceil, JS.of_int. simpl.
    unfold Qceiling, Qfloor, Qdiv, Qinv, Qmult, Qopp, inject_Z. simpl.
    replace (- (n * -1)) with n by lia. reflexivity.
Qed.

(** C1, amended.  The controller applies no clamp.  When it renders the grid
    it hands the column count on exactly as the layout hook supplies it,
    derives the row count as [Math.ceil(items.length / columnCount)] from that
    same number and uses it unchanged in the index arithmetic of the cells.
    With a column count of at least 1 the row count is a finite, non-negative
    integer; with a column count of zero or less it is not the row count a
    clamp to 1 would give. *)
Theorem grid_uses_column_count_unclamped props g :
  JS.length (items props) <> 0 -> 0 < containerWidth g ->
  exists cn h grid,
    VirtualGridInner props true g = GridContainer cn h (Some grid) /\
    grid_columnCount grid = columnCount g /\
    grid_rowCount grid =
      JS.Math_ceil (JS.div (JS.length (items props)) (columnCount g)) /\
    (forall col row style,
       grid_cellComponent grid col row style =
         Cell (items props) (columnCount g) (default 12 (priorityCount props))
           (gap g) (renderItem props) col row style) /\
    (forall col row style,
       call_index <$> snd (grid_cellComponent grid col row style) =
         if JS.length (items props) <=? row * columnCount g + col then []
         else [row * columnCount g + col]) /\
    (1 <= columnCount g ->
     exists r : Z, 0 <= r /\ grid_rowCount grid = JS.of_int r /\
       JS.is_finite (grid_rowCount grid) = true) /\
    (columnCount g <= 0 ->
     grid_rowCount grid <>
       rowCount (JS.length (items props)) (Z.max 1 (columnCount g))).
Proof.
  intros Hn Hw.
  assert (Hlen : 0 < JS.length (items props)) by (unfold JS.length in *; lia).
  destruct (VirtualGridInner_populated props g Hn Hw)
    as (cn & h & grid & Hview & Hcols & Hrows & Hcell).
  exists cn, h, grid. split; [exact Hview|]. split; [exact Hcols|].
  split; [exact Hrows|]. split; [by rewrite Hcell|]. split; [|split].
  - intros col row style. rewrite Hcell. unfold Cell.
    by destruct (JS.length (items props) <=? row * columnCount g + col).
  - intros Hc. rewrite Hrows.
    exists (- ((- JS.length (items props)) / columnCount g)).
    rewrite rowCount_pos_columns by lia.
    pose proof (neg_div_neg_bounds (JS.length (items props)) (columnCount g) ltac:(lia)).
    split; [nia|]. split; reflexivity.
  - intros Hc. rewrite Hrows.
    replace (Z.max 1 (columnCount g)) with 1 by lia.
    rewrite (rowCount_pos_columns _ 1) by lia.
    replace (- (- JS.length (items props) / 1)) with (JS.length (items props))
      by (rewrite Z.div_1_r; lia).
    destruct (Z.eq_dec (columnCount g) 0) as [H0|H0].
    + rewrite H0, rowCount_zero_columns by lia. discriminate.
    + destruct (rowCount_negative_columns (JS.length (items props)) (columnCount g))
        as (r & Hr & ->); [lia..|].
      intros Heq%of_int_inj. lia.
Qed.

(** C8.  For the item at linear index [i] the controller hands the grid a
    cell renderer that calls [renderItem(items[i], i < priorityCount, i)],
    where [priorityCount] is 12 when the prop is not given; with 100 items,
    5 columns and [priorityCount] 12 the grid gets [rowCount = 20], the items
    at index 0..11 get [priority = true] and those from 12 on get [false]. *)
Theorem priority_passed_to_renderItem props g col row style :
  let n := JS.length (items props) in
  let pc := default 12 (priorityCount props) in
  let i := row * columnCount g + col in
  0 <= i < n -> 0 < containerWidth g ->
  exists cn h grid item,
    VirtualGridInner props true g = GridContainer cn h (Some grid) /\
    items props !! Z.to_nat i = Some item /\
    snd (grid_cellComponent grid col row style) =
      [ {| call_item := Some item; call_priority := i <? pc; call_index := i |} ] /\
    cell_child (fst (grid_cellComponent grid col row style)) =
      Some (renderItem props (Some item) (i <? pc) i) /\
    (n = 100 -> columnCount g = 5 -> pc = 12 ->
     grid_rowCount grid = JS.of_int 20 /\
     (i <= 11 -> (i <? pc) = true) /\
     (12 <= i -> (i <? pc) = false)).
Proof.
  intros n pc i Hi Hw. subst n pc i.
  destruct (VirtualGridInner_populated props g ltac:(lia) Hw)
    as (cn & h & grid & Hview & _ & Hrows & Hcell).
  destruct (Cell_priority (items props) (columnCount g)
              (default 12 (priorityCount props)) (gap g) (renderItem props)
              col row style Hi) as (item & Hitem & Hcalls & Hchild).
  exists cn, h, grid, item. rewrite Hcell.
  split; [exact Hview|]. split; [exact Hitem|].
  split; [exact Hcalls|]. split; [exact Hchild|].
  intros Hn Hc Hpc. rewrite Hrows, Hn, Hc, Hpc.
  split; [reflexivity|]. split; intros Hb.
  - apply Z.ltb_lt. lia.
  - apply Z.ltb_ge. lia.
Qed.

(** C9.  With no items the component returns the empty-state placeholder
    with its literal text, whatever the state of the dynamic import
    ([gridLoaded]) and whatever the measured geometry: the test for an empty
    list comes before the tests for the loading and the populated state. *)
Theorem empty_state_takes_precedence props gridLoaded g :
  JS.length (items props) = 0 ->
  VirtualGridInner props gridLoaded g =
    EmptyState
      ("flex items-center justify-center text-gray-500 dark:text-gray-400 "
         ++ default ""%string (className props))
      (SHpx (match default DEFAULT_HEIGHT (height_prop props) with
             | HeightPx px => px
             | HeightCss _ => 200
             end))
      "暂无数据" /\
  (forall cn h, VirtualGridInner props gridLoaded g <> LoadingContainer cn h) /\
  (forall cn h grid, VirtualGridInner props gridLoaded g <> GridContainer cn h grid).
Proof.
  intros Hn. unfold VirtualGridInner. rewrite Hn. simpl.
  split; [reflexivity|]. split; intros; discriminate.
Qed.

End ControllerProperties.

Lemma priority_passed_to_renderItem_witness :
  let props := {| items := List.repeat 7%nat 100; renderItem := fun _ p _ => p;
                  height_prop := None; className := None;
                  priorityCount := None |} in
  let g := {| columnCount := 5; itemWidth := 100; itemHeight := 150;
              containerWidth := 580; gap := 16 |} in
  exists cn h grid,
    VirtualGridInner (conv := noStrings) props true g =
      GridContainer cn h (Some grid) /\
    grid_rowCount grid = JS.of_int 20 /\
    snd (grid_cellComponent grid 1 2 (fixedSizeStyle 100 150 1 2)) =
      [ {| call_item := Some 7%nat; call_priority := true; call_index := 11 |} ].
Proof.
  intros props g.
  destruct (priority_passed_to_renderItem (conv := noStrings) props g 1 2
              (fixedSizeStyle 100 150 1 2))
    as (cn & h & grid & item & Hview & Hitem & Hcalls & _ & Hscenario).
  - vm_compute. split; [discriminate|reflexivity].
  - vm_compute. reflexivity.
  - exists cn, h, grid. split; [exact Hview|].
    destruct Hscenario as (Hrows & _ & _); [reflexivity..|].
    split; [exact Hrows|].
    rewrite Hcalls. vm_compute in Hitem. injection Hitem as <-. reflexivity.
Defined.

Lemma empty_state_takes_precedence_witness :
  let props := {| items := @nil nat; renderItem := fun _ p _ => p;
                  height_prop := None; className := None;
                  priorityCount := None |} in
  let g := {| columnCount := 0; itemWidth := 0; itemHeight := 0;
              containerWidth := 0; gap := 0 |} in
  VirtualGridInner (conv := noStrings) props false g =
    EmptyState "flex items-center justify-center text-gray-500 dark:text-gray-400 "
      (SHpx 200) "暂无数据".
Proof.
  intros props g.
  apply (empty_state_takes_precedence (conv := noStrings) props false g). reflexivity.
Defined.

Lemma grid_uses_column_count_unclamped_witness :
  let props := {| items := List.repeat 7%nat 100; renderItem := fun _ p _ => p;
                  height_prop := None; className := None;
                  priorityCount := None |} in
  let g := {| columnCount := 5; itemWidth := 100; itemHeight := 150;
              containerWidth := 580; gap := 16 |} in
  exists cn h grid,
    VirtualGridInner (conv := noStrings) props true g =
      GridContainer cn h (Some grid) /\
    grid_columnCount grid = 5 /\
    grid_rowCount grid = JS.Math_ceil (JS.div 100 5) /\
    JS.is_finite (grid_rowCount grid) = true.
Proof.
  intros props g.
  destruct (grid_uses_column_count_unclamped (conv := noStrings) props g)
    as (cn & h & grid & Hview & Hcols & Hrows & _ & _ & Hfinite & _).
  - vm_compute. discriminate.
  - vm_compute. reflexivity.
  - exists cn, h, grid. split; [exact Hview|]. split; [exact Hcols|].
    split; [exact Hrows|].
    destruct Hfinite as (r & _ & _ & Hfin); [vm_compute; discriminate|exact Hfin].
Defined.

(** *** Placement of the items *)

Section Coverage.
Context {T Node : Type} {conv : JS.StringToNumber}.
Implicit Types (items : list T) (renderItem : option T -> bool -> Z -> Node).

(** X16.  With at least one column, the item at index [i] is shown by exactly
    one cell with a column index in range, the cell at row [i / columnCount]
    and column [i mod columnCount]; that row is below [rowCount]. *)
Theorem every_item_has_one_cell items cc pc gap renderItem (i : Z) style :
  1 <= cc -> 0 <= i < JS.length items ->
  let row := i / cc in
  let col := i mod cc in
  0 <= col < cc /\ 0 <= row /\
  (exists r, rowCount (JS.length items) cc = JS.of_int r /\ row < r) /\
  call_index <$> snd (Cell items cc pc gap renderItem col row style) = [i] /\
  (forall row' col', 0 <= col' < cc -> row' * cc + col' = i ->
     row' = row /\ col' = col).
Proof.
  intros Hcc Hi row col. subst row col.
  pose proof (Z.div_mod i cc ltac:(lia)) as Hdm.
  pose proof (Z.mod_pos_bound i cc ltac:(lia)) as Hmod.
  assert (Hrow : 0 <= i / cc) by (apply Z.div_pos; lia).
  split; [lia|]. split; [lia|]. split; [|split].
  - exists (- ((- JS.length items) / cc)).
    split; [apply rowCount_pos_columns; lia|].
    pose proof (neg_div_neg_bounds (JS.length items) cc ltac:(lia)). nia.
  - rewrite Cell_in_bounds by nia. simpl. f_equal. nia.
  - intros row' col' Hcol' Heq.
    assert (row' = i / cc); [|split; [done|nia]].
    apply (Z.div_unique i cc row' col'); [lia|lia].
Qed.

(** X17.  With the base positions of the fixed-size grid, an item cell in a
    column in range lies between 0 and [gridWidth], and the cell of the last
    column ends exactly at [gridWidth]. *)
Theorem item_cells_fit_grid_width items (g : ResponsiveGrid) pc renderItem col row :
  0 <= gap g -> 0 <= itemWidth g ->
  0 <= col < columnCount g ->
  row * columnCount g + col < JS.length items ->
  let s := cell_style (fst (Cell items (columnCount g) pc (gap g) renderItem col row
                              (fixedSizeStyle (itemWidth g) (itemHeight g) col row))) in
  exists l w : Z,
    left s = Some (CssNumber (JS.of_int l)) /\
    width s = Some (CssNumber (JS.of_int w)) /\
    0 <= l /\ l + w <= gridWidth g /\
    (col = columnCount g - 1 -> l + w = gridWidth g).
Proof.
  intros Hgap Hw Hcol Hin s. subst s.
  rewrite Cell_in_bounds by lia. unfold gridWidth.
  cbn [fst cell_style adjustedStyle fixedSizeStyle left width Number].
  rewrite add_of_int. eexists _, _. split; [reflexivity|]. split; [reflexivity|].
  split; [nia|]. split; [nia|]. intros ->. lia.
Qed.

End Coverage.

Lemma every_item_has_one_cell_witness :
  1 <= 3 /\ 0 <= 7 < JS.length (List.repeat 0%nat 8) /\
  call_index <$> snd (Cell (conv := noStrings) (List.repeat 0%nat 8) 3 12 16
                        (fun _ _ i => i) 1 2 (fixedSizeStyle 100 150 1 2)) = [7] /\
  (exists r, rowCount (JS.length (List.repeat 0%nat 8)) 3 = JS.of_int r /\ 2 < r).
Proof.
  assert (H1 : 1 <= 3) by lia.
  assert (H2 : 0 <= 7 < JS.length (List.repeat 0%nat 8)) by (unfold JS.length; simpl; lia).
  destruct (every_item_has_one_cell (conv := noStrings) (List.repeat 0%nat 8) 3 12 16
              (fun _ _ i => i) 7 (fixedSizeStyle 100 150 1 2) H1 H2)
    as (_ & _ & Hrows & Hcell & _).
  split; [exact H1|]. split; [exact H2|]. split; [exact Hcell|exact Hrows].
Defined.

Lemma item_cells_fit_grid_width_witness :
  let g := {| columnCount := 3; itemWidth := 100; itemHeight := 150;
              containerWidth := 340; gap := 16 |} in
  let s := cell_style (fst (Cell (conv := noStrings) (List.repeat 0%nat 8) 3 12 16
                              (fun _ _ i => i) 2 1 (fixedSizeStyle 100 150 2 1))) in
  gridWidth g = 332 /\
  exists l w : Z,
    left s = Some (CssNumber (JS.of_int l)) /\
    width s = Some (CssNumber (JS.of_int w)) /\
    l + w = gridWidth g.
Proof.
  intros g s. split; [reflexivity|].
  destruct (item_cells_fit_grid_width (conv := noStrings) (List.repeat 0%nat 8) g 12
              (fun _ _ i => i) 2 1) as (l & w & Hl & Hw & _ & _ & Hlast);
    [unfold JS.length; simpl; lia..|].
  exists l, w. split; [exact Hl|]. split; [exact Hw|]. apply Hlast. reflexivity.
Defined.

End VirtualGrid.

(* ===================================================================== *)
(** ** useImagePreload *)
(* ===================================================================== *)

Module ImagePreload.

Local Open Scope list_scope.

(** Strings are sequences of code units; the model covers the code units
    below 256, one per [ascii]. *)

(** The code units below 256 that [String.prototype.trim] strips: TAB, LF,
    VT, FF, CR, SPACE and NO-BREAK SPACE. *)
Definition is_white_space (c : ascii) : bool :=
  let n := nat_of_ascii c in
  ((9 <=? n)%nat && (n <=? 13)%nat) || (n =? 32)%nat || (n =? 160)%nat.

Fixpoint trimStart (s : string) : string :=
  match s with
  | EmptyString => EmptyString
  | String c s' => if is_white_space c then trimStart s' else s
  end.

Fixpoint trimEnd (s : string) : string :=
  match s with
  | EmptyString => EmptyString
  | String c s' =>
      match trimEnd s' with
      | EmptyString => if is_white_space c then EmptyString else String c EmptyString
      | t => String c t
      end
  end.

(** [s.trim()] *)
Definition trim (s : string) : string := trimEnd (trimStart s).

(** The filter predicate [(url) => url && url.trim() !== ''] *)
Definition is_valid_url (url : string) : bool :=
  negb (bool_decide (url = ""%string)) && negb (bool_decide (trim url = ""%string)).

Definition DEFAULT_PRELOAD_COUNT : Z := 12.

(** [urls.slice(0, count).filter((url) => url && url.trim() !== '')] *)
Definition urlsToPreload (urls : list string) (count : Z) : list string :=
  List.filter is_valid_url (JS.slice0 urls count).

(** The reading of the design document, to compare with: "the first [count]
    non-empty URLs" of the sequence, that is the first [count] elements of
    the subsequence of non-empty URLs. *)
Definition first_count_non_empty (urls : list string) (count : Z) : list string :=
  JS.slice0 (List.filter is_valid_url urls) count.

(** A [<link>] element.  [node_id] stands for the identity of the DOM node:
    [document.createElement] returns a node different from all earlier ones. *)
Record HTMLLinkElement : Type := mkLink {
  node_id : nat;
  rel : string;
  as_ : string;
  href : string;
  crossOrigin : option string;
}.

(** The part of the document the hook reads and writes: the [<link>]
    children of [document.head] in order, the [<link>] elements elsewhere
    in the document, and the number of nodes created so far. *)
Record Document : Type := mkDocument {
  head : list HTMLLinkElement;
  elsewhere : list HTMLLinkElement;
  created : nat;
}.

(** The state shared by all instances of the hook: the global [document]
    ([None] where [typeof document === 'undefined']) and the module-level
    set [preloadedUrls]. *)
Record Page : Type := mkPage {
  document : option Document;
  preloadedUrls : gset string;
}.

(** ASCII lower-casing: the letters [A]..[Z] go to [a]..[z], every other
    code unit stays. *)
Definition ascii_lower (c : ascii) : ascii :=
  let n := nat_of_ascii c in
  if (65 <=? n)%nat && (n <=? 90)%nat then ascii_of_nat (n + 32) else c.

Fixpoint ascii_lowercase (s : string) : string :=
  match s with
  | EmptyString => EmptyString
  | String c s' => String (ascii_lower c) (ascii_lowercase s')
  end.

(** [s] has the code unit U+0000. *)
Fixpoint contains_nul (s : string) : bool :=
  match s with
  | EmptyString => false
  | String c s' => (nat_of_ascii c =? 0)%nat || contains_nul s'
  end.

(** The value the selector [[href="${CSS.escape(url)}"]] compares the [href]
    attribute with.  Read back as a quoted value, what [CSS.escape] returns
    is [url] again, except that [CSS.escape] puts U+FFFD in the place of
    every U+0000: the value then has a code unit outside the model ([None]),
    and is the [href] of no link of the model. *)
Definition selector_value (url : string) : option string :=
  if contains_nul url then None else Some url.

(** [link[rel="preload"][href="..."]] matches the link: in an HTML document
    the value of [rel] is compared without regard to ASCII letter case, the
    value of [href] exactly. *)
Definition selector_matches (value : option string) (l : HTMLLinkElement) : bool :=
  bool_decide (ascii_lowercase (rel l) = "preload"%string) &&
  bool_decide (value = Some (href l)).

(** [document.querySelector(`link[rel="preload"][href="${CSS.escape(url)}"]`)]
    finds something: the selector matches some link of the document. *)
Definition preload_link_exists (doc : Document) (url : string) : bool :=
  existsb (selector_matches (selector_value url)) (head doc ++ elsewhere doc).

(** [document.createElement('link')] followed by the four assignments. *)
Definition createPreloadLink (doc : Document) (url : string) : HTMLLinkElement :=
  {| node_id := created doc;
     rel := "preload";
     as_ := "image";
     href := url;
     crossOrigin := Some "anonymous" |}.

(** [document.head.appendChild(link)] for a freshly created link. *)
Definition appendChild (doc : Document) (link : HTMLLinkElement) : Document :=
  {| head := head doc ++ [link];
     elsewhere := elsewhere doc;
     created := S (created doc) |}.

(** The state one run of the [forEach] callback works on: the document, the
    registry and [addedLinksRef.current] of the calling instance. *)
Definition PreloadState : Type :=
  Document * gset string * list HTMLLinkElement.

(** The body of [urlsToPreload.forEach((url) => ...)]. *)
Definition preloadOne (st : PreloadState) (url : string) : PreloadState :=
  let '(doc, registry, addedLinks) := st in
  if bool_decide (url ∈ registry) then st
  else if preload_link_exists doc url then (doc, {[url]} ∪ registry, addedLinks)
  else
    let link := createPreloadLink doc url in
    (appendChild doc link, {[url]} ∪ registry, addedLinks ++ [link]).

(** The first effect of [useImagePreload(urls, count)], run by the instance
    whose [addedLinksRef.current] is [addedLinks]. *)
Definition preloadEffect (urls : list string) (count : option Z)
    (page : Page) (addedLinks : list HTMLLinkElement)
  : Page * list HTMLLinkElement :=
  match document page with
  | None => (page, addedLinks)
  | Some doc =>
      if JS.length urls =? 0 then (page, addedLinks)
      else
        let '(doc', registry', addedLinks') :=
          foldl preloadOne (doc, preloadedUrls page, addedLinks)
            (urlsToPreload urls (default DEFAULT_PRELOAD_COUNT count)) in
        ({| document := Some doc'; preloadedUrls := registry' |}, addedLinks')
  end.

(** [document.head.removeChild(link)]: [None] stands for the [NotFoundError]
    thrown when [link] is not a child of [document.head]. *)
Definition removeChild (doc : Document) (link : HTMLLinkElement)
  : option Document :=
  if existsb (fun l => Nat.eqb (node_id l) (node_id link)) (head doc) then
    Some {| head := List.filter (fun l => negb (Nat.eqb (node_id l) (node_id link)))
                      (head doc);
            elsewhere := elsewhere doc;
            created := created doc |}
  else None.

Section Cleanup.

(** What the DOM returns for the [href] property of a link whose [href]
    attribute is the given string: the attribute resolved against the
    document's base URL and serialised.  It is the attribute itself for an
    absolute URL in serialised form. *)
Variable href_property : string -> string.

(** The body of [addedLinksRef.current.forEach((link) => { try ... catch })]:
    an exception leaves the [try] block before [preloadedUrls.delete]. *)
Definition cleanupOne (page : Page) (link : HTMLLinkElement) : Page :=
  match document page with
  | None => page
  | Some doc =>
      match removeChild doc link with
      | Some doc' =>
          {| document := Some doc';
             preloadedUrls := preloadedUrls page ∖ {[ href_property (href link) ]} |}
      | None => page
      end
  end.

(** The cleanup of the second effect, run when the instance unmounts. *)
Definition cleanupEffect (page : Page) (addedLinks : list HTMLLinkElement)
  : Page * list HTMLLinkElement :=
  (foldl cleanupOne page addedLinks, []).

End Cleanup.

(** The URL is already a preload hint of the document: some [<link>] of the
    document, in [document.head] or elsewhere, has the [rel] attribute
    [preload], in any letter case, and the [href] attribute that the hook's
    selector carries for the URL. *)
Definition already_hinted (doc : Document) (url : string) : Prop :=
  Exists (fun l => ascii_lowercase (rel l) = "preload"%string /\
                   selector_value url = Some (href l))
    (head doc ++ elsewhere doc).

#[global] Instance already_hinted_dec doc url : Decision (already_hinted doc url).
Proof. unfold already_hinted. apply _. Defined.

(** A candidate URL gets a hint element when it is neither in the registry
    nor already a preload hint of the document. *)
Definition needs_hint (doc : Document) (registry : gset string) (url : string) : Prop :=
  (url ∉ registry) /\ ¬ already_hinted doc url.

#[global] Instance needs_hint_dec doc registry url : Decision (needs_hint doc registry url).
Proof. unfold needs_hint. apply _. Defined.

(** [link.href] on a page at [https://deco.example/], for the URLs the
    examples use: a path-absolute URL (it starts with a slash) is resolved
    against the origin of the page, and the absolute URLs of the examples,
    which are in serialised form, read back unchanged. *)
Definition exampleHrefProperty (url : string) : string :=
  if String.prefix "/" url then ("https://deco.example" ++ url)%string else url.

(** A page without links and with an empty registry. *)
Definition emptyPage : Page :=
  {| document := Some {| head := []; elsewhere := []; created := 0 |};
     preloadedUrls := ∅ |}.

(** Another script takes [link] out of [document.head] (the hint is
    "removed by another path"); the registry is not touched. *)
Definition detach (link : HTMLLinkElement) (page : Page) : Page :=
  match document page with
  | None => page
  | Some doc =>
      {| document := Some (default doc (removeChild doc link));
         preloadedUrls := preloadedUrls page |}
  end.

(** *** Several instances on one page *)

(** [addedLinksRef.current] of every instance of the hook, by instance number;
    an instance that is not mounted has the empty list. *)
Definition Refs : Type := nat -> list HTMLLinkElement.

Definition set_ref (refs : Refs) (i : nat) (links : list HTMLLinkElement) : Refs :=
  fun j => if Nat.eqb j i then links else refs j.

(** What can happen to the page: some instance runs its preload effect (on
    mount, or when [urls] or [count] changed), or some instance unmounts and
    its cleanup runs. *)
Inductive hook_step (href_property : string -> string)
  : Page * Refs -> Page * Refs -> Prop :=
| step_effect (i : nat) (urls : list string) (count : option Z) page refs :
    hook_step href_property (page, refs)
      (fst (preloadEffect urls count page (refs i)),
       set_ref refs i (snd (preloadEffect urls count page (refs i))))
| step_unmount (i : nat) page refs :
    hook_step href_property (page, refs)
      (fst (cleanupEffect href_property page (refs i)),
       set_ref refs i (snd (cleanupEffect href_property page (refs i)))).

(** Every link an instance holds is a child of [document.head], and no two
    instances hold the same node. *)
Record owns_hints (page : Page) (refs : Refs) : Prop := mkOwns {
  owned_in_head : forall doc i l,
    document page = Some doc -> l ∈ refs i -> l ∈ head doc;
  owned_ids_created : forall doc i l,
    document page = Some doc -> l ∈ refs i -> (node_id l < created doc)%nat;
  owned_ids_apart : forall i j l l',
    i <> j -> l ∈ refs i -> l' ∈ refs j -> node_id l <> node_id l';
  owned_needs_document : forall i, document page = None -> refs i = [];
}.

(** The steps of a page on which the hook is only given URLs that
    [link.href] reads back unchanged (absolute URLs in serialised form):
    an effect run whose candidates are all such URLs, or a teardown. *)
Inductive absolute_step (href_property : string -> string)
  : Page * Refs -> Page * Refs -> Prop :=
| absolute_effect (i : nat) (urls : list string) (count : option Z) page refs :
    (forall u, u ∈ urlsToPreload urls (default DEFAULT_PRELOAD_COUNT count) ->
       href_property u = u) ->
    absolute_step href_property (page, refs)
      (fst (preloadEffect urls count page (refs i)),
       set_ref refs i (snd (preloadEffect urls count page (refs i))))
| absolute_unmount (i : nat) page refs :
    absolute_step href_property (page, refs)
      (fst (cleanupEffect href_property page (refs i)),
       set_ref refs i (snd (cleanupEffect href_property page (refs i)))).

(** Every URL some instance holds a hint for is registered, and held once. *)
Record hints_registered (page : Page) (refs : Refs) : Prop := mkRegistered {
  held_registered : forall i l, l ∈ refs i -> href l ∈ preloadedUrls page;
  held_once : forall i, NoDup (href <$> refs i);
  held_by_one : forall i j l l',
    i <> j -> l ∈ refs i -> l' ∈ refs j -> href l <> href l';
}.

(** Every held hint has a URL that [link.href] reads back unchanged. *)
Definition held_read_back (href_property : string -> string) (refs : Refs) : Prop :=
  forall i l, l ∈ refs i -> href_property (href l) = href l.

(** *** Scheduling *)

Lemma preload_link_exists_true doc url :
  preload_link_exists doc url = true <-> already_hinted doc url.
Proof.
  unfold preload_link_exists, already_hinted. rewrite existsb_exists, Exists_exists.
  split; intros (l & Hl & Hm); exists l; (split; [by apply list_elem_of_In|]).
  - unfold selector_matches in Hm.
    apply andb_true_iff in Hm as [Hrel Hhref].
    by apply bool_decide_eq_true in Hrel, Hhref.
  - destruct Hm as [Hrel Hhref]. unfold selector_matches.
    apply andb_true_iff. by rewrite !bool_decide_eq_true.
Qed.

Lemma preload_link_exists_false doc url :
  preload_link_exists doc url = false <-> ¬ already_hinted doc url.
Proof.
  rewrite <- preload_link_exists_true. by destruct (preload_link_exists doc url).
Qed.


Lemma not_hinted_without_links doc url :
  (forall l, l ∈ head doc ++ elsewhere doc ->
     ascii_lowercase (rel l) = "preload"%string -> href l <> url) ->
  ¬ already_hinted doc url.
Proof.
  intros Hnone. unfold already_hinted, selector_value.
  rewrite Exists_exists. intros (l & Hl & Hrel & Hhref).
  destruct (contains_nul url); [discriminate|].
  apply (Hnone l Hl Hrel). congruence.
Qed.

Lemma preload_link_exists_appendChild doc url u :
  u <> url ->
  preload_link_exists (appendChild doc (createPreloadLink doc url)) u =
  preload_link_exists doc u.
Proof.
  intros Hne. unfold preload_link_exists, appendChild. simpl.
  rewrite !existsb_app. simpl.
  assert (Hno : selector_matches (selector_value u) (createPreloadLink doc url) = false).
  { unfold selector_matches, selector_value. cbn [href createPreloadLink].
    apply andb_false_iff. right. apply bool_decide_eq_false.
    destruct (contains_nul u); [discriminate|]. congruence. }
  rewrite Hno. by rewrite orb_false_r.
Qed.

Lemma preloadOne_registered doc registry added url :
  url ∈ registry -> preloadOne (doc, registry, added) url = (doc, registry, added).
Proof. intros Hin. unfold preloadOne. by rewrite bool_decide_eq_true_2. Qed.

Lemma preloadOne_existing doc registry added url :
  url ∉ registry -> preload_link_exists doc url = true ->
  preloadOne (doc, registry, added) url = (doc, {[url]} ∪ registry, added).
Proof.
  intros Hnin Hex. unfold preloadOne.
  by rewrite bool_decide_eq_false_2, Hex.
Qed.

Lemma preloadOne_new doc registry added url :
  url ∉ registry -> preload_link_exists doc url = false ->
  preloadOne (doc, registry, added) url =
    (appendChild doc (createPreloadLink doc url), {[url]} ∪ registry,
     added ++ [createPreloadLink doc url]).
Proof.
  intros Hnin Hex. unfold preloadOne.
  by rewrite bool_decide_eq_false_2, Hex.
Qed.

Lemma foldl_preloadOne_spec (cs : list string) :
  forall doc registry added,
  exists issued : list HTMLLinkElement,
    foldl preloadOne (doc, registry, added) cs =
      ({| head := head doc ++ issued;
          elsewhere := elsewhere doc;
          created := created doc + length issued |},
       registry ∪ list_to_set cs, added ++ issued) /\
    NoDup (href <$> issued) /\
    (forall u, u ∈ (href <$> issued) <->
       u ∈ cs /\ (u ∉ registry) /\ preload_link_exists doc u = false) /\
    Forall (fun l => rel l = "preload"%string /\
                     (created doc <= node_id l < created doc + length issued)%nat)
      issued.
Proof.
  induction cs as [|c cs IH]; intros doc registry added.
  - exists []. simpl. rewrite !app_nil_r, Nat.add_0_r, (right_id_L ∅ (∪)).
    destruct doc; simpl. split; [done|]. split; [constructor|].
    split; [|constructor]. intros u. split; [by intros ?%elem_of_nil|].
    by intros [?%elem_of_nil _].
  - cbn [foldl].
    destruct (decide (c ∈ registry)) as [Hin|Hnin].
    + rewrite preloadOne_registered by done.
      destruct (IH doc registry added) as (issued & Heq & Hnd & Hiff & Hall).
      exists issued. rewrite Heq. split; [f_equal; f_equal; set_solver|].
      split; [done|]. split; [|done].
      intros u. rewrite Hiff. set_solver.
    + destruct (preload_link_exists doc c) eqn:Hex.
      * rewrite preloadOne_existing by done.
        destruct (IH doc ({[c]} ∪ registry) added) as (issued & Heq & Hnd & Hiff & Hall).
        exists issued. rewrite Heq. split; [f_equal; f_equal; set_solver|].
        split; [done|]. split; [|done].
        intros u. rewrite Hiff. split.
        -- intros (Hu & Hnu & Hf). split; [set_solver|]. split; [set_solver|done].
        -- intros (Hu & Hnu & Hf).
           assert (u <> c) by congruence. set_solver.
      * rewrite preloadOne_new by done.
        set (link := createPreloadLink doc c).
        destruct (IH (appendChild doc link) ({[c]} ∪ registry) (added ++ [link]))
          as (issued & Heq & Hnd & Hiff & Hall).
        exists (link :: issued). rewrite Heq. simpl.
        split.
        { f_equal; [f_equal|].
          - rewrite <- app_assoc. simpl. f_equal. lia.
          - set_solver.
          - by rewrite <- app_assoc. }
        split.
        { constructor; [|done]. rewrite Hiff. set_solver. }
        split.
        { intros u. rewrite elem_of_cons, Hiff. split.
          - intros [->|(Hu & Hnu & Hf)].
            + split; [set_solver|]. done.
            + assert (u <> c) by set_solver.
              unfold link in Hf.
              rewrite preload_link_exists_appendChild in Hf by done.
              set_solver.
          - intros (Hu & Hnu & Hf).
            destruct (decide (u = c)) as [->|Hne]; [by left|right].
            unfold link.
            rewrite preload_link_exists_appendChild by done. set_solver. }
        constructor.
        { simpl. split; [done|lia]. }
        eapply Forall_impl; [exact Hall|]. simpl. intros l [? ?]. split; [done|lia].
Qed.


Lemma urlsToPreload_nil count : urlsToPreload [] count = [].
Proof. unfold urlsToPreload, JS.slice0. destruct (_ <? 0); by rewrite take_nil. Qed.

Lemma preloadEffect_spec urls count page added doc :
  document page = Some doc ->
  exists issued : list HTMLLinkElement,
    preloadEffect urls count page added =
      ({| document := Some {| head := head doc ++ issued;
                              elsewhere := elsewhere doc;
                              created := created doc + length issued |};
          preloadedUrls :=
            preloadedUrls page ∪ list_to_set (urlsToPreload urls (default 12 count)) |},
       added ++ issued) /\
    NoDup (href <$> issued) /\
    (forall u, u ∈ (href <$> issued) <->
       u ∈ urlsToPreload urls (default 12 count) /\
       needs_hint doc (preloadedUrls page) u) /\
    Forall (fun l => rel l = "preload"%string /\
                     (created doc <= node_id l < created doc + length issued)%nat)
      issued.
Proof.
  intros Hdoc. unfold preloadEffect. rewrite Hdoc.
  destruct (Z.eqb_spec (JS.length urls) 0) as [Hlen|Hlen].
  - destruct urls; [|discriminate Hlen]. rewrite urlsToPreload_nil.
    exists []. simpl. rewrite !app_nil_r, Nat.add_0_r, (right_id_L ∅ (∪)).
    destruct page as [d r], doc. simpl in *. subst d.
    split; [done|]. split; [constructor|]. split; [|constructor].
    intros u. split; [by intros ?%elem_of_nil|by intros [?%elem_of_nil _]].
  - destruct (foldl_preloadOne_spec (urlsToPreload urls (default 12 count))
                doc (preloadedUrls page) added)
      as (issued & Heq & Hnd & Hiff & Hids).
    exists issued. change DEFAULT_PRELOAD_COUNT with 12. rewrite Heq.
    split; [done|]. split; [done|]. split; [|exact Hids].
    intros u. rewrite Hiff. unfold needs_hint. by rewrite preload_link_exists_false.
Qed.


Lemma take_filter_all_valid (f : string -> bool) (n : nat) (l : list string) :
  Forall (fun x => f x = true) (take n l) ->
  List.filter f (take n l) = take n (List.filter f l).
Proof.
  revert l. induction n as [|n IH]; intros [|x l] Hall; simpl in *; try done.
  inversion Hall as [|? ? Hx Hrest]; subst. rewrite Hx. simpl. f_equal. by apply IH.
Qed.

(** The two selections agree when none of the first [count] URLs is empty. *)
Lemma urlsToPreload_all_valid (urls : list string) (count : Z) :
  (0 <= count)%Z ->
  Forall (fun u => is_valid_url u = true) (take (Z.to_nat count) urls) ->
  urlsToPreload urls count = first_count_non_empty urls count.
Proof.
  intros Hc Hall. unfold urlsToPreload, first_count_non_empty, JS.slice0.
  destruct (Z.ltb_spec count 0); [lia|]. by apply take_filter_all_valid.
Qed.

(** C3.  The code slices before it filters: of [""; "a"; "b"] with count 2
    it selects ["a"], the non-empty URLs among the first two elements, where
    the first two non-empty URLs are ["a"; "b"]. *)
Example urlsToPreload_slices_before_filtering :
  urlsToPreload [""; "a"; "b"]%string 2 = ["a"%string] /\
  first_count_non_empty [""; "a"; "b"]%string 2 = ["a"; "b"]%string.
Proof. split; reflexivity. Qed.



(** A page whose document already has a preload link for [b.jpg], written
    with [rel="PRELOAD"] outside [document.head], and whose registry holds
    [c.jpg]. *)
Definition hintedPage : Page :=
  {| document :=
       Some {| head := [];
               elsewhere := [ {| node_id := 0; rel := "PRELOAD"; as_ := "image";
                                 href := "https://img.example/b.jpg";
                                 crossOrigin := None |} ];
               created := 1 |};
     preloadedUrls := {[ "https://img.example/c.jpg"%string ]} |}.


(** *** Teardown *)

Section CleanupProperties.
Variable href_property : string -> string.

Lemma removeChild_head doc link doc' :
  removeChild doc link = Some doc' ->
  (forall l, l ∈ head doc' <-> l ∈ head doc /\ node_id l <> node_id link) /\
  elsewhere doc' = elsewhere doc /\ created doc' = created doc /\
  node_id link ∈ (node_id <$> head doc).
Proof.
  unfold removeChild. destruct (existsb _ _) eqn:Hex; [|discriminate].
  intros [= <-]. simpl. split; [|split; [done|split; [done|]]].
  - intros l. rewrite !list_elem_of_In, filter_In, negb_true_iff, Nat.eqb_neq. done.
  - apply existsb_exists in Hex as (l & Hl & Heq%Nat.eqb_eq).
    rewrite <- Heq. apply list_elem_of_fmap_2. by apply list_elem_of_In.
Qed.

Lemma removeChild_absent doc link :
  removeChild doc link = None <-> node_id link ∉ (node_id <$> head doc).
Proof.
  unfold removeChild. destruct (existsb _ _) eqn:Hex.
  - split; [discriminate|]. intros Hnin. exfalso. apply Hnin.
    apply existsb_exists in Hex as (l & Hl & Heq%Nat.eqb_eq).
    rewrite <- Heq. apply list_elem_of_fmap_2. by apply list_elem_of_In.
  - split; [|done]. intros _ (l & Heq & Hl)%list_elem_of_fmap.
    assert (existsb (fun l0 => Nat.eqb (node_id l0) (node_id link)) (head doc) = true);
      [|congruence].
    apply existsb_exists. exists l. split; [by apply list_elem_of_In|].
    apply Nat.eqb_eq. done.
Qed.

Lemma foldl_cleanupOne_spec (added : list HTMLLinkElement) :
  forall page doc,
  document page = Some doc ->
  exists doc',
    document (foldl (cleanupOne href_property) page added) = Some doc' /\
    (forall l, l ∈ head doc' <->
       l ∈ head doc /\ node_id l ∉ (node_id <$> added)) /\
    elsewhere doc' = elsewhere doc /\
    created doc' = created doc /\
    (forall u, u ∈ preloadedUrls (foldl (cleanupOne href_property) page added) ->
       u ∈ preloadedUrls page) /\
    (forall u, u ∈ preloadedUrls page ->
       (forall l, l ∈ added -> node_id l ∈ (node_id <$> head doc) ->
          href_property (href l) <> u) ->
       u ∈ preloadedUrls (foldl (cleanupOne href_property) page added)).
Proof.
  induction added as [|a rest IH]; intros page doc Hdoc.
  - exists doc. simpl. split; [done|]. split; [|done].
    intros l. split; [|tauto]. intros Hl. split; [done|]. by intros ?%elem_of_nil.
  - cbn [foldl]. unfold cleanupOne at 2 4 6. rewrite Hdoc.
    destruct (removeChild doc a) as [doc1|] eqn:Hrm.
    + apply removeChild_head in Hrm as (Hhead & Hels & Hcr & Hpresent).
      destruct (IH {| document := Some doc1;
                      preloadedUrls := preloadedUrls page ∖ {[href_property (href a)]} |}
                   doc1 eq_refl) as (doc' & Hd & Hh & He & Hc & Hsub & Hkeep).
      exists doc'. split; [done|]. split.
      { intros l. rewrite Hh, Hhead, fmap_cons, not_elem_of_cons. tauto. }
      split; [congruence|]. split; [congruence|]. split.
      { intros u Hu. apply Hsub in Hu. simpl in Hu. set_solver. }
      intros u Hu Hne. apply Hkeep.
      * simpl. apply elem_of_difference. split; [done|].
        intros Heq%elem_of_singleton. apply (Hne a); [by left|done|done].
      * intros l Hl Hin. apply Hne; [by right|].
        apply list_elem_of_fmap in Hin as (l' & Hid & Hl').
        apply Hhead in Hl' as [Hl' _]. rewrite Hid. by apply list_elem_of_fmap_2.
    + apply removeChild_absent in Hrm.
      destruct (IH page doc Hdoc) as (doc' & Hd & Hh & He & Hc & Hsub & Hkeep).
      exists doc'. split; [done|]. split.
      { intros l. rewrite Hh, fmap_cons, not_elem_of_cons. split; [|tauto].
        intros [Hl Hn]. split; [done|]. split; [|done].
        intros Heq. apply Hrm. rewrite <- Heq. by apply list_elem_of_fmap_2. }
      split; [done|]. split; [done|]. split; [done|].
      intros u Hu Hne. apply Hkeep; [done|]. intros l Hl Hin. apply Hne; [by right|done].
Qed.

(** Two instances on one page: A schedules, then B schedules, then A
    unmounts.  Every hint B added is still a child of [document.head]. *)
Lemma cleanup_keeps_hints_of_other_instance
    urlsA countA urlsB countB page doc :
  document page = Some doc ->
  let '(page1, addedA) := preloadEffect urlsA countA page [] in
  let '(page2, addedB) := preloadEffect urlsB countB page1 [] in
  let '(page3, _) := cleanupEffect href_property page2 addedA in
  exists doc3, document page3 = Some doc3 /\
    forall l, l ∈ addedB -> l ∈ head doc3.
Proof.
  intros Hdoc.
  destruct (preloadEffect_spec urlsA countA page [] doc Hdoc)
    as (issuedA & HeqA & _ & _ & HidsA).
  rewrite HeqA.
  match goal with |- context [preloadEffect urlsB countB ?p _] =>
    destruct (preloadEffect_spec urlsB countB p [] _ eq_refl)
      as (issuedB & HeqB & _ & _ & HidsB); rewrite HeqB
  end.
  cbn [cleanupEffect head elsewhere created] in *.
  match goal with |- context [foldl _ ?p ?a] =>
    destruct (foldl_cleanupOne_spec a p _ eq_refl)
      as (doc3 & Hd3 & Hh3 & _)
  end.
  exists doc3. split; [exact Hd3|].
  intros l Hl. apply Hh3. cbn [head]. simpl in Hl. split.
  - apply elem_of_app. by right.
  - intros (a & Hid & Ha)%list_elem_of_fmap. simpl in Ha.
    rewrite Forall_forall in HidsA, HidsB.
    destruct (HidsA a Ha) as [_ HrA]. destruct (HidsB l Hl) as [_ HrB]. lia.
Qed.

End CleanupProperties.

(** C4.  Two runs of the teardown that leave the registry entry of a hint
    the instance added.  (1) The hint element was taken out of the document
    by another script before the instance unmounts: [removeChild] throws,
    the exception is swallowed, and [preloadedUrls.delete] is skipped.
    (2) The URL is relative: the element is removed, but the entry deleted
    is the resolved [link.href], not the URL that was registered.  In both
    the URL stays registered with no hint in the document, and a later
    instance scheduling the same URL issues nothing. *)
Example cleanup_leaves_registry_entry :
  (let u := "https://img.example/p1.jpg"%string in
   let link := {| node_id := 0; rel := "preload"; as_ := "image"; href := u;
                  crossOrigin := Some "anonymous"%string |} in
   let '(page1, addedA) := preloadEffect [u] None emptyPage [] in
   let page2 := detach link page1 in
   let '(page3, addedA') := cleanupEffect (fun s => s) page2 addedA in
   addedA = [link] /\
   (head <$> document page2) = Some [] /\
   addedA' = [] /\
   elements (preloadedUrls page3) = [u] /\
   preloadEffect [u] None page3 [] = (page3, [])) /\
  (let u := "/p1.jpg"%string in
   let href_property := fun s => ("https://deco.example" ++ s)%string in
   let '(page1, addedA) := preloadEffect [u] None emptyPage [] in
   let '(page2, addedA') := cleanupEffect href_property page1 addedA in
   (href <$> addedA) = [u] /\
   (head <$> document page2) = Some [] /\
   elements (preloadedUrls page2) = [u] /\
   preloadEffect [u] None page2 [] = (page2, [])).
Proof. vm_compute. repeat split. Qed.

(** *** Candidates and bounds *)

Lemma trimEnd_empty (s : string) :
  trimEnd s = ""%string <-> JS.every_char is_white_space s = true.
Proof.
  induction s as [|c s IH]; [done|]. simpl.
  destruct (trimEnd s) as [|d t] eqn:Ht.
  - destruct (is_white_space c); simpl.
    + rewrite <- IH. done.
    + split; discriminate.
  - split; [discriminate|]. intros [_ Hs]%andb_true_iff.
    apply IH in Hs. discriminate.
Qed.

Lemma every_char_trimStart (s : string) :
  JS.every_char is_white_space (trimStart s) = JS.every_char is_white_space s.
Proof.
  induction s as [|c s IH]; [done|]. simpl.
  destruct (is_white_space c) eqn:Hc; [exact IH|]. simpl. by rewrite Hc.
Qed.

(** X9.  A URL passes the filter exactly when it has a character that is not
    white space: empty and blank URLs are never candidates. *)
Theorem is_valid_url_iff_not_blank (url : string) :
  is_valid_url url = negb (JS.every_char is_white_space url) /\
  (trim url = ""%string <-> JS.every_char is_white_space url = true) /\
  (is_valid_url url = true -> url <> ""%string).
Proof.
  assert (Htrim : trim url = ""%string <-> JS.every_char is_white_space url = true).
  { unfold trim. rewrite trimEnd_empty, every_char_trimStart. done. }
  split; [|split; [exact Htrim|]].
  - unfold is_valid_url.
    destruct (JS.every_char is_white_space url) eqn:Hall; simpl.
    + rewrite (bool_decide_eq_true_2 (trim url = ""%string)) by (by apply Htrim).
      by rewrite andb_false_r.
    + rewrite (bool_decide_eq_false_2 (trim url = ""%string)).
      * rewrite (bool_decide_eq_false_2 (url = ""%string)); [done|].
        intros ->. discriminate.
      * intros H. apply Htrim in H. discriminate.
  - intros Hv ->. discriminate.
Qed.

Lemma urlsToPreload_length (urls : list string) (count : Z) :
  (0 <= count)%Z -> (length (urlsToPreload urls count) <= Z.to_nat count)%nat.
Proof.
  intros Hc. unfold urlsToPreload, JS.slice0.
  destruct (Z.ltb_spec count 0); [lia|].
  etrans; [apply List.filter_length_le|]. rewrite length_take. lia.
Qed.

(** X10.  One run of the effect with a non-negative count adds at most
    [count] links to [addedLinksRef]. *)
Theorem preloadEffect_issues_at_most_count urls count page added :
  (0 <= default 12 count)%Z ->
  (length (snd (preloadEffect urls count page added)) <=
     length added + Z.to_nat (default 12%Z count))%nat.
Proof.
  intros Hc. destruct (document page) as [doc|] eqn:Hdoc.
  - destruct (preloadEffect_spec urls count page added doc Hdoc)
      as (issued & Heq & Hnd & Hiff & _).
    rewrite Heq. cbn [snd]. rewrite length_app.
    apply Nat.add_le_mono_l.
    rewrite <- (length_fmap href issued).
    etrans; [|by apply urlsToPreload_length].
    apply submseteq_length, NoDup_submseteq; [done|].
    intros u Hu. by apply Hiff in Hu as [? _].
  - unfold preloadEffect. rewrite Hdoc. simpl. lia.
Qed.

(** X11.  After a run with a document, the registry holds what it held before
    and every candidate URL, hinted or not, and nothing else. *)
Theorem preloadEffect_registers_candidates urls count page added doc :
  document page = Some doc ->
  forall u, u ∈ preloadedUrls (fst (preloadEffect urls count page added)) <->
            u ∈ preloadedUrls page \/ u ∈ urlsToPreload urls (default 12 count).
Proof.
  intros Hdoc u.
  destruct (preloadEffect_spec urls count page added doc Hdoc) as (issued & Heq & _).
  rewrite Heq. cbn [fst preloadedUrls].
  rewrite elem_of_union, elem_of_list_to_set. done.
Qed.

Lemma preloadEffect_issues_at_most_count_witness :
  (0 <= default 12 (Some 2))%Z /\
  (length (snd (preloadEffect ["a"; "b"; "c"]%string (Some 2%Z) emptyPage [])) <= 0 + 2)%nat.
Proof.
  split; [simpl; lia|].
  apply (preloadEffect_issues_at_most_count ["a"; "b"; "c"]%string (Some 2%Z) emptyPage []).
  simpl. lia.
Defined.

Lemma preloadEffect_registers_candidates_witness :
  "b"%string ∈ preloadedUrls (fst (preloadEffect ["a"; ""; "b"]%string None emptyPage [])).
Proof.
  apply (preloadEffect_registers_candidates ["a"; ""; "b"]%string None emptyPage []
           {| head := []; elsewhere := []; created := 0 |} eq_refl).
  right. vm_compute. right. left.
Defined.

(** *** Mount and unmount *)

Lemma foldl_preloadOne_node_ids (cs : list string) :
  forall doc registry added,
  exists issued : list HTMLLinkElement,
    (foldl preloadOne (doc, registry, added) cs).2 = added ++ issued /\
    node_id <$> issued = seq (created doc) (length issued).
Proof.
  induction cs as [|c cs IH]; intros doc registry added.
  - exists []. simpl. by rewrite app_nil_r.
  - cbn [foldl].
    destruct (decide (c ∈ registry)) as [Hin|Hnin].
    { rewrite preloadOne_registered by done. apply IH. }
    destruct (preload_link_exists doc c) eqn:Hex.
    { rewrite preloadOne_existing by done. apply IH. }
    rewrite preloadOne_new by done.
    destruct (IH (appendChild doc (createPreloadLink doc c)) ({[c]} ∪ registry)
                (added ++ [createPreloadLink doc c])) as (issued & Heq & Hids).
    exists (createPreloadLink doc c :: issued). split.
    + rewrite Heq. by rewrite <- app_assoc.
    + rewrite fmap_cons, Hids. reflexivity.
Qed.

Lemma preloadEffect_node_ids urls count page added doc issued :
  document page = Some doc ->
  snd (preloadEffect urls count page added) = added ++ issued ->
  node_id <$> issued = seq (created doc) (length issued).
Proof.
  intros Hdoc. unfold preloadEffect. rewrite Hdoc.
  destruct (JS.length urls =? 0).
  - simpl. intros Heq. rewrite <- (app_nil_r added) in Heq at 1.
    apply app_inv_head in Heq as <-. done.
  - destruct (foldl_preloadOne_node_ids
                (urlsToPreload urls (default DEFAULT_PRELOAD_COUNT count))
                doc (preloadedUrls page) added) as (issued' & Heq' & Hids).
    destruct (foldl preloadOne _ _) as [[d r] a]. simpl in *. subst a.
    intros Heq. apply app_inv_head in Heq as ->. exact Hids.
Qed.

Section MountUnmount.
Variable href_property : string -> string.

Lemma foldl_cleanupOne_no_document added page :
  document page = None -> foldl (cleanupOne href_property) page added = page.
Proof.
  intros Hdoc. induction added as [|a rest IH]; [done|].
  cbn [foldl]. unfold cleanupOne at 2. by rewrite Hdoc.
Qed.

Lemma filter_other_ids (a : HTMLLinkElement) (l : list HTMLLinkElement) :
  node_id a ∉ (node_id <$> l) ->
  List.filter (fun x => negb (Nat.eqb (node_id x) (node_id a))) l = l.
Proof.
  induction l as [|x l IH]; [done|]. rewrite fmap_cons, not_elem_of_cons.
  intros [Hne Hl]. simpl.
  destruct (Nat.eqb_spec (node_id x) (node_id a)); [congruence|].
  simpl. by rewrite IH.
Qed.

Lemma foldl_cleanupOne_all_present (issued : list HTMLLinkElement) :
  forall hd els cr (registry : gset string),
  NoDup (node_id <$> issued) ->
  (forall l, l ∈ hd -> node_id l ∉ (node_id <$> issued)) ->
  foldl (cleanupOne href_property)
    {| document := Some {| head := hd ++ issued; elsewhere := els; created := cr |};
       preloadedUrls := registry |} issued =
    {| document := Some {| head := hd; elsewhere := els; created := cr |};
       preloadedUrls :=
         registry ∖ list_to_set ((fun l => href_property (href l)) <$> issued) |}.
Proof.
  induction issued as [|a rest IH]; intros hd els cr registry Hnd Hhd.
  - simpl. rewrite app_nil_r. f_equal. set_solver.
  - rewrite fmap_cons in Hnd. apply NoDup_cons in Hnd as [Ha Hrest].
    cbn [foldl]. unfold cleanupOne at 2. cbn [document preloadedUrls].
    unfold removeChild. cbn [head elsewhere created].
    rewrite existsb_app. simpl. rewrite Nat.eqb_refl, orb_true_r.
    rewrite List.filter_app. simpl. rewrite Nat.eqb_refl. simpl.
    rewrite !filter_other_ids.
    + rewrite IH.
      * f_equal. set_solver.
      * exact Hrest.
      * intros l Hl Hin. apply (Hhd l Hl). rewrite fmap_cons. by right.
    + exact Ha.
    + intros (l & Hid & Hl)%list_elem_of_fmap. apply (Hhd l Hl).
      rewrite fmap_cons, <- Hid. by left.
Qed.

(** X13.  Mounting and unmounting gives the page back: when the candidates
    read back through [link.href] unchanged and none of the unregistered
    ones is already a preload hint of the document, the children of
    [document.head] and the registry after the teardown are what they were
    before the effect ran. *)
Theorem mount_unmount_restores_page urls count page doc :
  document page = Some doc ->
  (forall l, l ∈ head doc -> (node_id l < created doc)%nat) ->
  (forall u, u ∈ urlsToPreload urls (default 12 count) ->
     href_property u = u /\
     (u ∈ preloadedUrls page \/ ¬ already_hinted doc u)) ->
  let mounted := preloadEffect urls count page [] in
  let unmounted := cleanupEffect href_property (fst mounted) (snd mounted) in
  snd unmounted = [] /\
  preloadedUrls (fst unmounted) = preloadedUrls page /\
  exists doc', document (fst unmounted) = Some doc' /\
    head doc' = head doc /\ elsewhere doc' = elsewhere doc.
Proof.
  intros Hdoc Hfresh Hcands mounted unmounted. subst unmounted mounted.
  destruct (preloadEffect_spec urls count page [] doc Hdoc)
    as (issued & Heq & Hnd & Hiff & _).
  pose proof (preloadEffect_node_ids urls count page [] doc issued Hdoc) as Hids.
  rewrite Heq in Hids |- *. cbn [fst snd] in *. specialize (Hids eq_refl).
  unfold cleanupEffect. cbn [fst snd]. simpl app.
  rewrite foldl_cleanupOne_all_present.
  - cbn [preloadedUrls document]. split; [done|]. split.
    + apply set_eq. intros u.
      rewrite elem_of_difference, elem_of_union, !elem_of_list_to_set.
      split; [|intros Hu; split; [by left|]].
      * intros [[Hu|Hu] Hnot]; [done|].
        destruct (Hcands u Hu) as [Hh [Hreg|Hex]]; [done|].
        destruct (decide (u ∈ preloadedUrls page)) as [|Hnreg]; [done|].
        exfalso. apply Hnot.
        assert (Hin : u ∈ href <$> issued) by (apply Hiff; split; [done|by split]).
        apply list_elem_of_fmap in Hin as (l & -> & Hl).
        apply list_elem_of_fmap. exists l. split; [by rewrite Hh|done].
      * intros (l & -> & Hl)%list_elem_of_fmap.
        assert (Hin : href l ∈ href <$> issued) by (by apply list_elem_of_fmap_2).
        apply Hiff in Hin as [Hc [Hnreg _]].
        destruct (Hcands _ Hc) as [Hh _]. rewrite Hh in Hu. done.
    + eexists. split; [reflexivity|]. done.
  - rewrite Hids. apply NoDup_seq.
  - intros l Hl. rewrite Hids, elem_of_seq. specialize (Hfresh l Hl). lia.
Qed.

End MountUnmount.

(** *** Invariants over runs *)

Lemma set_ref_eq refs i links : set_ref refs i links i = links.
Proof. unfold set_ref. by rewrite Nat.eqb_refl. Qed.

Lemma set_ref_ne refs i j links : j <> i -> set_ref refs i links j = refs j.
Proof. unfold set_ref. intros Hne. by destruct (Nat.eqb_spec j i). Qed.

Lemma NoDup_fmap_same {A B} (f : A -> B) (l : list A) (x y : A) :
  NoDup (f <$> l) -> x ∈ l -> y ∈ l -> f x = f y -> x = y.
Proof.
  induction l as [|a l IH]; [by intros _ ?%elem_of_nil|].
  rewrite fmap_cons, NoDup_cons, !elem_of_cons.
  intros [Ha Hl] [->|Hx] [->|Hy] Hf; [done| | |by apply IH].
  - exfalso. apply Ha. rewrite Hf. by apply list_elem_of_fmap_2.
  - exfalso. apply Ha. rewrite <- Hf. by apply list_elem_of_fmap_2.
Qed.

Section Instances.
Variable href_property : string -> string.

Lemma effect_keeps_owns_hints i urls count page refs :
  owns_hints page refs ->
  owns_hints (fst (preloadEffect urls count page (refs i)))
    (set_ref refs i (snd (preloadEffect urls count page (refs i)))).
Proof.
  intros [Hhead Hids Hapart Hnodoc].
  destruct (document page) as [doc|] eqn:Hdoc.
  - destruct (preloadEffect_spec urls count page (refs i) doc Hdoc)
      as (issued & Heq & _ & _ & Hrange).
    rewrite Heq. cbn [fst snd]. rewrite Forall_forall in Hrange.
    assert (Hnew : forall k l, l ∈ set_ref refs i (refs i ++ issued) k ->
              l ∈ refs k \/ (k = i /\ l ∈ issued)).
    { intros k l. destruct (decide (k = i)) as [->|Hne].
      - rewrite set_ref_eq, elem_of_app. naive_solver.
      - rewrite set_ref_ne by done. by left. }
    split.
    + intros doc' k l [= <-] Hl. cbn [head]. apply elem_of_app.
      destruct (Hnew k l Hl) as [Hold|[_ Hiss]]; [left; by eapply Hhead|by right].
    + intros doc' k l [= <-] Hl. cbn [created].
      destruct (Hnew k l Hl) as [Hold|[_ Hiss]].
      * specialize (Hids doc k l eq_refl Hold). lia.
      * destruct (Hrange l Hiss) as [_ ?]. lia.
    + intros k j l l' Hkj Hl Hl'.
      destruct (Hnew k l Hl) as [Hold|[-> Hiss]];
        destruct (Hnew j l' Hl') as [Hold'|[-> Hiss']].
      * by eapply Hapart.
      * specialize (Hids doc k l eq_refl Hold). destruct (Hrange l' Hiss') as [_ ?]. lia.
      * specialize (Hids doc j l' eq_refl Hold'). destruct (Hrange l Hiss) as [_ ?]. lia.
      * done.
    + intros k. cbn [document]. discriminate.
  - unfold preloadEffect. rewrite Hdoc. cbn [fst snd].
    assert (Hsame : forall k, set_ref refs i (refs i) k = refs k).
    { intros k. unfold set_ref. by destruct (Nat.eqb_spec k i) as [->|]. }
    split.
    + intros d k l Hd. rewrite Hdoc in Hd. discriminate.
    + intros d k l Hd. rewrite Hdoc in Hd. discriminate.
    + intros k j l l'. rewrite !Hsame. apply Hapart.
    + intros k _. rewrite Hsame. by apply Hnodoc.
Qed.

Lemma unmount_keeps_owns_hints i page refs :
  owns_hints page refs ->
  owns_hints (fst (cleanupEffect href_property page (refs i)))
    (set_ref refs i (snd (cleanupEffect href_property page (refs i)))).
Proof.
  intros [Hhead Hids Hapart Hnodoc]. unfold cleanupEffect. cbn [fst snd].
  assert (Hold : forall k l, l ∈ set_ref refs i [] k -> k <> i /\ l ∈ refs k).
  { intros k l. destruct (decide (k = i)) as [->|Hne].
    - rewrite set_ref_eq. by intros ?%elem_of_nil.
    - by rewrite set_ref_ne. }
  destruct (document page) as [doc|] eqn:Hdoc.
  - destruct (foldl_cleanupOne_spec href_property (refs i) page doc Hdoc)
      as (doc' & Hd & Hh & _ & Hc & _).
    split.
    + intros d k l Hd' Hl. rewrite Hd in Hd'. injection Hd' as <-.
      destruct (Hold k l Hl) as [Hne Hl']. apply Hh. split; [by eapply Hhead|].
      intros (l0 & Hid & Hl0)%list_elem_of_fmap.
      by apply (Hapart k i l l0 Hne Hl' Hl0).
    + intros d k l Hd' Hl. rewrite Hd in Hd'. injection Hd' as <-.
      destruct (Hold k l Hl) as [_ Hl']. rewrite Hc. by eapply Hids.
    + intros k j l l' Hkj Hl Hl'.
      destruct (Hold k l Hl) as [_ ?]. destruct (Hold j l' Hl') as [_ ?].
      by eapply Hapart.
    + intros k. rewrite Hd. discriminate.
  - rewrite foldl_cleanupOne_no_document by done.
    split; intros *; try (rewrite Hdoc; discriminate).
    + intros Hkj Hl Hl'.
      destruct (Hold _ _ Hl) as [_ ?]. destruct (Hold _ _ Hl') as [_ ?].
      by eapply Hapart.
    + intros _. destruct (decide (i0 = i)) as [->|Hne];
        [apply set_ref_eq|rewrite set_ref_ne by done; by apply Hnodoc].
Qed.

Lemma steps_keep_owns_hints s s' :
  rtc (hook_step href_property) s s' ->
  owns_hints s.1 s.2 -> owns_hints s'.1 s'.2.
Proof.
  induction 1 as [|s1 s2 s3 Hstep _ IH]; [done|].
  intros Hinv. apply IH. destruct Hstep; cbn [fst snd] in *.
  - by apply effect_keeps_owns_hints.
  - by apply unmount_keeps_owns_hints.
Qed.

Lemma effect_keeps_hints_registered i urls count page refs :
  hints_registered page refs ->
  (document page = None -> refs i = []) ->
  hints_registered (fst (preloadEffect urls count page (refs i)))
    (set_ref refs i (snd (preloadEffect urls count page (refs i)))).
Proof.
  intros [Hreg Honce Hone] Hnodoc.
  destruct (document page) as [doc|] eqn:Hdoc.
  - destruct (preloadEffect_spec urls count page (refs i) doc Hdoc)
      as (issued & Heq & Hnd & Hiff & _).
    rewrite Heq. cbn [fst snd preloadedUrls].
    assert (Hissued : forall l, l ∈ issued ->
              (href l ∉ preloadedUrls page) /\
              href l ∈ urlsToPreload urls (default 12 count)).
    { intros l Hl. apply (list_elem_of_fmap_2 href) in Hl.
      apply Hiff in Hl as [Hc [Hn _]]. done. }
    assert (Hnew : forall k l, l ∈ set_ref refs i (refs i ++ issued) k ->
              l ∈ refs k \/ (k = i /\ l ∈ issued)).
    { intros k l. destruct (decide (k = i)) as [->|Hne].
      - rewrite set_ref_eq, elem_of_app. naive_solver.
      - rewrite set_ref_ne by done. by left. }
    split.
    + intros k l Hl. apply elem_of_union.
      destruct (Hnew k l Hl) as [Hold|[_ Hiss]].
      * left. by eapply Hreg.
      * right. apply elem_of_list_to_set. by apply Hissued.
    + intros k. destruct (decide (k = i)) as [->|Hne].
      * rewrite set_ref_eq, fmap_app. apply NoDup_app.
        split; [apply Honce|]. split; [|done].
        intros u (l & -> & Hl)%list_elem_of_fmap (l' & Hu & Hl')%list_elem_of_fmap.
        destruct (Hissued l' Hl') as [Hn _]. apply Hn. rewrite <- Hu. by eapply Hreg.
      * rewrite set_ref_ne by done. apply Honce.
    + intros k j l l' Hkj Hl Hl' Hhref.
      destruct (Hnew k l Hl) as [Hold|[-> Hiss]];
        destruct (Hnew j l' Hl') as [Hold'|[-> Hiss']].
      * by eapply (Hone k j l l').
      * destruct (Hissued l' Hiss') as [Hn _]. apply Hn. rewrite <- Hhref. by eapply Hreg.
      * destruct (Hissued l Hiss) as [Hn _]. apply Hn. rewrite Hhref. by eapply Hreg.
      * done.
  - unfold preloadEffect. rewrite Hdoc. cbn [fst snd].
    assert (Hsame : forall k, set_ref refs i (refs i) k = refs k).
    { intros k. unfold set_ref. by destruct (Nat.eqb_spec k i) as [->|]. }
    split.
    + intros k l. rewrite Hsame. apply Hreg.
    + intros k. rewrite Hsame. apply Honce.
    + intros k j l l'. rewrite !Hsame. apply Hone.
Qed.

Lemma unmount_keeps_hints_registered i page refs :
  (forall l, l ∈ refs i -> href_property (href l) = href l) ->
  hints_registered page refs ->
  hints_registered (fst (cleanupEffect href_property page (refs i)))
    (set_ref refs i (snd (cleanupEffect href_property page (refs i)))).
Proof.
  intros Hid [Hreg Honce Hone]. unfold cleanupEffect. cbn [fst snd].
  assert (Hold : forall k l, l ∈ set_ref refs i [] k -> k <> i /\ l ∈ refs k).
  { intros k l. destruct (decide (k = i)) as [->|Hne].
    - rewrite set_ref_eq. by intros ?%elem_of_nil.
    - by rewrite set_ref_ne. }
  split.
  - intros k l Hl. destruct (Hold k l Hl) as [Hne Hl'].
    destruct (document page) as [doc|] eqn:Hdoc.
    + destruct (foldl_cleanupOne_spec href_property (refs i) page doc Hdoc)
        as (doc' & _ & _ & _ & _ & _ & Hkeep).
      apply Hkeep; [by eapply Hreg|].
      intros l0 Hl0 _. rewrite (Hid l0 Hl0). intros Heq.
      by apply (Hone i k l0 l (not_eq_sym Hne) Hl0 Hl').
    + rewrite foldl_cleanupOne_no_document by done. by eapply Hreg.
  - intros k. destruct (decide (k = i)) as [->|Hne].
    + rewrite set_ref_eq. constructor.
    + rewrite set_ref_ne by done. apply Honce.
  - intros k j l l' Hkj Hl Hl'.
    destruct (Hold k l Hl) as [_ ?]. destruct (Hold j l' Hl') as [_ ?].
    by eapply Hone.
Qed.

Lemma effect_keeps_held_read_back i urls count page refs :
  (forall u, u ∈ urlsToPreload urls (default 12 count) -> href_property u = u) ->
  held_read_back href_property refs ->
  held_read_back href_property
    (set_ref refs i (snd (preloadEffect urls count page (refs i)))).
Proof.
  intros Hurls Hback k l.
  destruct (decide (k = i)) as [->|Hne]; [|rewrite set_ref_ne by done; apply Hback].
  rewrite set_ref_eq.
  destruct (document page) as [doc|] eqn:Hdoc.
  - destruct (preloadEffect_spec urls count page (refs i) doc Hdoc)
      as (issued & Heq & _ & Hiff & _).
    rewrite Heq. cbn [snd]. intros [Hold|Hnew]%elem_of_app; [by eapply Hback|].
    apply Hurls. apply (list_elem_of_fmap_2 href) in Hnew.
    by apply Hiff in Hnew as [Hc _].
  - unfold preloadEffect. rewrite Hdoc. cbn [snd]. apply Hback.
Qed.

Lemma unmount_keeps_held_read_back i page refs :
  held_read_back href_property refs ->
  held_read_back href_property
    (set_ref refs i (snd (cleanupEffect href_property page (refs i)))).
Proof.
  intros Hback k l. unfold cleanupEffect. cbn [snd].
  destruct (decide (k = i)) as [->|Hne].
  - rewrite set_ref_eq. by intros ?%elem_of_nil.
  - rewrite set_ref_ne by done. apply Hback.
Qed.

Lemma absolute_steps_keep_hints_registered s s' :
  rtc (absolute_step href_property) s s' ->
  owns_hints s.1 s.2 -> hints_registered s.1 s.2 ->
  held_read_back href_property s.2 ->
  owns_hints s'.1 s'.2 /\ hints_registered s'.1 s'.2.
Proof.
  induction 1 as [|s1 s2 s3 Hstep _ IH]; [done|].
  intros Hown Hinv Hback. destruct Hstep; cbn [fst snd] in *; apply IH.
  - by apply effect_keeps_owns_hints.
  - apply effect_keeps_hints_registered; [done|]. intros Hd. by eapply owned_needs_document.
  - by apply effect_keeps_held_read_back.
  - by apply unmount_keeps_owns_hints.
  - apply unmount_keeps_hints_registered; [|done]. intros l Hl. by eapply Hback.
  - by apply unmount_keeps_held_read_back.
Qed.

Lemma nothing_held page :
  owns_hints page (fun _ => []) /\ hints_registered page (fun _ => []).
Proof.
  split; split; intros;
    try (exfalso; eapply elem_of_nil; eassumption); try done.
  constructor.
Qed.

(** X14.  Ownership over any run of effects and teardowns of any number of
    instances: a link an instance holds is a child of [document.head], and
    no other instance holds the same node. *)
Theorem held_hints_stay_in_document page0 page refs doc i l :
  rtc (hook_step href_property) (page0, fun _ => []) (page, refs) ->
  document page = Some doc ->
  l ∈ refs i ->
  l ∈ head doc /\
  (forall j l', j <> i -> l' ∈ refs j -> node_id l' <> node_id l).
Proof.
  intros Hrun Hdoc Hl.
  pose proof (steps_keep_owns_hints _ _ Hrun (proj1 (nothing_held page0)))
    as [Hhead _ Hapart _].
  cbn [fst snd] in *. split; [by eapply Hhead|].
  intros j l' Hne Hl'. by eapply Hapart.
Qed.

(** X15.  Over any run of effects and teardowns of any number of instances
    in which the hook is only given URLs that [link.href] reads back
    unchanged: every URL an instance holds a hint for is registered, and no
    URL is held twice, neither by two instances nor twice by one. *)
Theorem no_url_held_twice page0 page refs i j l l' :
  rtc (absolute_step href_property) (page0, fun _ => []) (page, refs) ->
  l ∈ refs i -> l' ∈ refs j ->
  href l ∈ preloadedUrls page /\
  (href l = href l' -> i = j /\ l = l').
Proof.
  intros Hrun Hl Hl'.
  destruct (absolute_steps_keep_hints_registered _ _ Hrun
              (proj1 (nothing_held page0)) (proj2 (nothing_held page0)))
    as [_ [Hreg Honce Hone]].
  { intros k x Hx. by apply elem_of_nil in Hx. }
  cbn [fst snd] in *. split; [by eapply Hreg|].
  intros Heq. destruct (decide (i = j)) as [->|Hne].
  - split; [done|]. by eapply (NoDup_fmap_same href (refs j)).
  - by destruct (Hone i j l l' Hne Hl Hl').
Qed.

(** What one teardown does to the page. *)
(** X12.  A teardown empties [addedLinksRef], removes from [document.head]
    exactly the nodes of [addedLinksRef] and keeps the other children in
    order, leaves the rest of the document alone and never adds a registry
    entry. *)
Theorem cleanupEffect_removes_only_own_nodes page addedLinks doc :
  document page = Some doc ->
  let after := cleanupEffect href_property page addedLinks in
  snd after = [] /\
  preloadedUrls (fst after) ⊆ preloadedUrls page /\
  exists doc',
    document (fst after) = Some doc' /\
    (forall l, l ∈ head doc' <->
       l ∈ head doc /\ (node_id l ∉ (node_id <$> addedLinks))) /\
    sublist (head doc') (head doc) /\
    elsewhere doc' = elsewhere doc.
Proof.
  intros Hdoc after. subst after. unfold cleanupEffect. cbn [fst snd].
  destruct (foldl_cleanupOne_spec href_property addedLinks page doc Hdoc)
    as (doc' & Hd & Hh & He & _ & Hsub & _).
  split; [done|]. split; [intros u; apply Hsub|].
  exists doc'. split; [done|]. split; [done|]. split; [|done].
  clear Hh Hsub He. revert page doc Hdoc doc' Hd.
  induction addedLinks as [|a rest IH]; intros page doc Hdoc doc' Hd.
  - simpl in Hd. rewrite Hdoc in Hd. by injection Hd as <-.
  - cbn [foldl] in Hd. unfold cleanupOne at 2 in Hd. rewrite Hdoc in Hd.
    destruct (removeChild doc a) as [doc1|] eqn:Hrm.
    + etrans; [exact (IH (mkPage (Some doc1) _) doc1 eq_refl _ Hd)|].
      unfold removeChild in Hrm. destruct (existsb _ _); [|discriminate].
      injection Hrm as <-. cbn [head].
      clear. induction (head doc) as [|x l IHl]; [constructor|]. simpl.
      destruct (negb _); by constructor.
    + by eapply IH.
Qed.

End Instances.

Lemma held_hints_stay_in_document_witness :
  let b := {| node_id := 1; rel := "preload"; as_ := "image"; href := "b";
              crossOrigin := Some "anonymous"%string |} in
  let doc := {| head := [b]; elsewhere := []; created := 2 |} in
  exists page refs,
    rtc (hook_step (fun u => u)) (emptyPage, fun _ => []) (page, refs) /\
    document page = Some doc /\ refs 1%nat = [b] /\ b ∈ head doc.
Proof.
  intros b doc. eexists _, _.
  match goal with |- ?R /\ _ => assert (Hrun : R) end.
  { eapply rtc_l; [apply (step_effect _ 0 ["a"%string] None)|].
    eapply rtc_l; [apply (step_effect _ 1 ["b"%string] None)|].
    eapply rtc_l; [apply (step_unmount _ 0)|]. apply rtc_refl. }
  split; [exact Hrun|].
  match goal with |- ?D /\ _ => assert (Hdoc : D) by (vm_compute; reflexivity) end.
  split; [exact Hdoc|]. split; [vm_compute; reflexivity|].
  refine (proj1 (held_hints_stay_in_document (fun u => u) emptyPage _ _ doc 1 b
                   Hrun Hdoc _)).
  vm_compute. left.
Defined.

Lemma no_url_held_twice_witness :
  let u := "https://img.example/a.jpg"%string in
  let a := {| node_id := 0; rel := "preload"; as_ := "image"; href := u;
              crossOrigin := Some "anonymous"%string |} in
  exists page refs,
    rtc (absolute_step exampleHrefProperty) (emptyPage, fun _ => []) (page, refs) /\
    refs 0%nat = [a] /\ refs 1%nat = [] /\ href a ∈ preloadedUrls page.
Proof.
  intros u a. eexists _, _.
  assert (Habs : forall v, v ∈ urlsToPreload [u] (default DEFAULT_PRELOAD_COUNT None) ->
            exampleHrefProperty v = v).
  { intros v Hv.
    assert (Hc : urlsToPreload [u] (default DEFAULT_PRELOAD_COUNT None) = [u])
      by (vm_compute; reflexivity).
    rewrite Hc in Hv. apply list_elem_of_singleton in Hv as ->. reflexivity. }
  match goal with |- ?R /\ _ => assert (Hrun : R) end.
  { eapply rtc_l; [apply (absolute_effect _ 0 [u] None _ _ Habs)|].
    eapply rtc_l; [apply (absolute_effect _ 1 [u] None _ _ Habs)|]. apply rtc_refl. }
  split; [exact Hrun|].
  split; [vm_compute; reflexivity|]. split; [vm_compute; reflexivity|].
  refine (proj1 (no_url_held_twice exampleHrefProperty emptyPage _ _ 0 0 a a
                   Hrun _ _)); vm_compute; left.
Defined.

Lemma cleanupEffect_removes_only_own_nodes_witness :
  let mounted := preloadEffect ["a"; "b"]%string None emptyPage [] in
  exists doc',
    document (fst (cleanupEffect (fun u => u) (fst mounted) (snd mounted))) = Some doc' /\
    head doc' = [].
Proof.
  intros mounted.
  destruct (cleanupEffect_removes_only_own_nodes (fun u => u) (fst mounted) (snd mounted)
              {| head := snd mounted; elsewhere := []; created := 2 |})
    as (_ & _ & doc' & Hd & Hh & _ & _).
  - vm_compute. reflexivity.
  - exists doc'. split; [exact Hd|].
    destruct (head doc') as [|l rest]; [done|].
    exfalso. destruct (proj1 (Hh l)) as [Hin Hnot]; [left|].
    apply Hnot. by apply list_elem_of_fmap_2.
Defined.

Lemma mount_unmount_restores_page_witness :
  let urls := ["https://img.example/a.jpg"; "https://img.example/c.jpg"]%string in
  let mounted := preloadEffect urls None hintedPage [] in
  let unmounted := cleanupEffect exampleHrefProperty (fst mounted) (snd mounted) in
  (href <$> snd mounted) = ["https://img.example/a.jpg"%string] /\
  preloadedUrls (fst unmounted) = preloadedUrls hintedPage /\
  exists doc', document (fst unmounted) = Some doc' /\ head doc' = [].
Proof.
  intros urls mounted unmounted. split; [vm_compute; reflexivity|].
  destruct (mount_unmount_restores_page exampleHrefProperty urls None hintedPage
              {| head := [];
                 elsewhere := [ {| node_id := 0; rel := "PRELOAD"; as_ := "image";
                                   href := "https://img.example/b.jpg";
                                   crossOrigin := None |} ];
                 created := 1 |})
    as (_ & Hreg & doc' & Hd & Hh & _).
  - reflexivity.
  - intros l Hl. by apply elem_of_nil in Hl.
  - intros u Hu.
    assert (Hc : urlsToPreload urls (default 12 None) = urls) by (vm_compute; reflexivity).
    rewrite Hc in Hu. unfold urls in Hu. rewrite !elem_of_cons in Hu.
    destruct Hu as [->|[->|Hu]]; [| |by apply elem_of_nil in Hu].
    + split; [reflexivity|]. right.
      apply preload_link_exists_false. vm_compute. reflexivity.
    + split; [reflexivity|]. left. vm_compute. reflexivity.
  - split; [exact Hreg|]. exists doc'. split; [exact Hd|exact Hh].
Defined.

End ImagePreload.

(* ===================================================================== *)
(** ** TVBox subscriptions *)
(* ===================================================================== *)

Module TVBox.

Local Open Scope list_scope.

Record TVBoxSite : Type := mkSite {
  site_key : string;
  site_name : string;
  site_type : Z;
  site_api : string;
  site_searchable : option Z;
  site_quickSearch : option Z;
  site_filterable : option Z;
  site_ext : option string;
  site_categories : option (list string);
}.

Record TVBoxJson : Type := mkTVBoxJson {
  spider : option string;
  wallpaper : option string;
  sites : option (list TVBoxSite);
}.

(** [parseTVBoxSites]: only type 1 (JSON) sites are supported. *)
Definition parseTVBoxSites (config : TVBoxJson) : list TVBoxSite :=
  match sites config with
  | None => []
  | Some l => List.filter (fun site => site_type site =? 1) l
  end.

(** An entry of [AdminConfig.SourceConfig], with the fields
    [mergeTVBoxSites] writes. *)
Record SourceEntry : Type := mkSource {
  key : string;
  name : string;
  api : string;
  from : string;
  disabled : option bool;
  is_adult : option bool;
  detail : option string;
}.

Definition is_alnum (c : ascii) : bool :=
  let n := nat_of_ascii c in
  ((48 <=? n) && (n <=? 57) || (65 <=? n) && (n <=? 90)
   || (97 <=? n) && (n <=? 122))%nat.

(** [toLowerCase] on one code unit below 256. *)
Definition lower_char (c : ascii) : ascii :=
  let n := nat_of_ascii c in
  if ((65 <=? n) && (n <=? 90) || (192 <=? n) && (n <=? 214)
      || (216 <=? n) && (n <=? 222))%nat
  then ascii_of_nat (n + 32) else c.

Fixpoint map_chars (f : ascii -> ascii) (s : string) : string :=
  match s with
  | EmptyString => EmptyString
  | String c s' => String (f c) (map_chars f s')
  end.

(** [name.replace(/[^a-zA-Z0-9]/g, '_').toLowerCase()] *)
Definition sanitizeKey (name : string) : string :=
  map_chars lower_char
    (map_chars (fun c => if is_alnum c then c else "_"%char) name).

(** [s.startsWith(p)] *)
Definition startsWith (s p : string) : bool := String.prefix p s.

(** [`tvbox_${safeName}_`] *)
Definition keyPrefix (safeName : string) : string :=
  ("tvbox_" ++ safeName ++ "_")%string.

Section AdminConfig.

(** The other fields of [AdminConfig] (declared in admin.types), which the
    spread [{ ...adminConfig }] copies unchanged. *)
Context {Rest : Type}.

Record AdminConfig : Type := mkAdminConfig {
  SourceConfig : list SourceEntry;
  otherFields : Rest;
}.

(** [mergeTVBoxSites]: the spread copies the configuration, [filter] builds
    a new array and [push] appends to that new array, so the argument is
    not modified. *)
Definition mergeTVBoxSites (adminConfig : AdminConfig) (sites : list TVBoxSite)
    (subscriptionName : string) : AdminConfig :=
  let safeName := sanitizeKey subscriptionName in
  let kept :=
    List.filter (fun s => negb (startsWith (key s) (keyPrefix safeName)))
      (SourceConfig adminConfig) in
  let newSites :=
    List.map (fun site =>
      {| key := (keyPrefix safeName ++ site_key site)%string;
         name := site_name site;
         api := site_api site;
         from := "tvbox";
         disabled := Some false;
         is_adult := Some false;
         detail := Some (site_name site) |}) sites in
  {| SourceConfig := kept ++ newSites; otherFields := otherFields adminConfig |}.

Definition removeTVBoxSites (adminConfig : AdminConfig)
    (subscriptionName : string) : AdminConfig :=
  let safeName := sanitizeKey subscriptionName in
  {| SourceConfig :=
       List.filter (fun s => negb (startsWith (key s) (keyPrefix safeName)))
         (SourceConfig adminConfig);
     otherFields := otherFields adminConfig |}.

End AdminConfig.

Arguments AdminConfig : clear implicits.

(** The characters a sanitized key is made of: [a-z], [0-9] and [_]. *)
Definition is_key_char (c : ascii) : bool :=
  let n := nat_of_ascii c in
  ((48 <=? n) && (n <=? 57) || (97 <=? n) && (n <=? 122) || (n =? 95))%nat.

(** [sanitizeKey] on one character. *)
Definition sanitize_char (c : ascii) : ascii :=
  lower_char (if is_alnum c then c else "_"%char).

(** The predicate of the [filter] call: the key is outside the subscription. *)
Definition outside (name : string) (s : SourceEntry) : bool :=
  negb (startsWith (key s) (keyPrefix (sanitizeKey name))).

(** The entries [mergeTVBoxSites] builds from the sites. *)
Definition newEntries (name : string) (sites : list TVBoxSite) : list SourceEntry :=
  List.map (fun site =>
      {| key := (keyPrefix (sanitizeKey name) ++ site_key site)%string;
         name := site_name site; api := site_api site; from := "tvbox";
         disabled := Some false; is_adult := Some false;
         detail := Some (site_name site) |}) sites.

(** A configuration and sites to run the functions on. *)
Definition exampleConfig : AdminConfig unit :=
  {| SourceConfig :=
       [ {| key := "a"; name := "A"; api := "https://a.example/api";
            from := "config"; disabled := None; is_adult := None; detail := None |} ];
     otherFields := tt |}.

Definition exampleSite (k : string) : TVBoxSite :=
  {| site_key := k; site_name := k; site_type := 1; site_api := "https://s.example";
     site_searchable := None; site_quickSearch := None; site_filterable := None;
     site_ext := None; site_categories := None |}.


Lemma startsWith_append (p k : string) : startsWith (p ++ k)%string p = true.
Proof.
  unfold startsWith. induction p as [|c p IH]; simpl.
  - by destruct k.
  - destruct (ascii_dec c c); [exact IH|contradiction].
Qed.

Lemma filter_app_all_false {A} (f : A -> bool) (l k : list A) :
  (forall x, In x k -> f x = false) ->
  List.filter f (l ++ k) = List.filter f l.
Proof.
  intros Hk. rewrite List.filter_app.
  assert (Hnil : List.filter f k = []).
  { induction k as [|x k IH]; [done|]. simpl.
    rewrite (Hk x) by (by left). apply IH. intros y Hy. apply Hk. by right. }
  by rewrite Hnil, app_nil_r.
Qed.

Lemma filter_filter_same {A} (f : A -> bool) (l : list A) :
  List.filter f (List.filter f l) = List.filter f l.
Proof.
  induction l as [|x l IH]; [done|]. simpl.
  destruct (f x) eqn:Hx; [|exact IH]. simpl. by rewrite Hx, IH.
Qed.

Section MergeProperties.
Context {Rest : Type}.
Implicit Types (cfg : AdminConfig Rest) (sites : list TVBoxSite) (name : string).

(** C10.  Merging the same sites under the same subscription name twice
    gives the same configuration as merging once; the entries whose key
    does not start with ['tvbox_' + sanitizeKey(name) + '_'] are the same
    entries in the same order before and after a merge, and they come first
    in the result, followed by one prefixed entry per site. *)
Theorem mergeTVBoxSites_idempotent_and_framed cfg sites name :
  let outside (s : SourceEntry) :=
    negb (startsWith (key s) ("tvbox_" ++ sanitizeKey name ++ "_")%string) in
  mergeTVBoxSites (mergeTVBoxSites cfg sites name) sites name =
    mergeTVBoxSites cfg sites name /\
  List.filter outside (SourceConfig (mergeTVBoxSites cfg sites name)) =
    List.filter outside (SourceConfig cfg) /\
  (exists added,
     SourceConfig (mergeTVBoxSites cfg sites name) =
       List.filter outside (SourceConfig cfg) ++ added /\
     length added = length sites /\
     forall s, In s added -> outside s = false).
Proof.
  intros outside.
  set (newSites := List.map (fun site =>
      {| key := (keyPrefix (sanitizeKey name) ++ site_key site)%string;
         name := site_name site; api := site_api site; from := "tvbox";
         disabled := Some false; is_adult := Some false;
         detail := Some (site_name site) |}) sites).
  assert (Hnew : forall s, In s newSites -> outside s = false).
  { intros s (site & <- & _)%in_map_iff. unfold outside. simpl.
    fold (keyPrefix (sanitizeKey name)). by rewrite startsWith_append. }
  assert (Hframe : List.filter outside (List.filter outside (SourceConfig cfg) ++ newSites)
                   = List.filter outside (SourceConfig cfg)).
  { rewrite filter_app_all_false by exact Hnew. apply filter_filter_same. }
  split; [|split].
  - unfold mergeTVBoxSites at 1 2. cbn [SourceConfig otherFields].
    fold outside. fold newSites. unfold mergeTVBoxSites. fold outside. fold newSites.
    f_equal. f_equal. exact Hframe.
  - exact Hframe.
  - exists newSites. split; [reflexivity|]. split; [apply length_map|exact Hnew].
Qed.

End MergeProperties.

(** *** Keys and subscriptions *)

Lemma sanitizeKey_cons c s :
  sanitizeKey (String c s) = String (sanitize_char c) (sanitizeKey s).
Proof. reflexivity. Qed.

Lemma sanitize_char_key_char c : is_key_char (sanitize_char c) = true.
Proof. destruct c as [[] [] [] [] [] [] [] []]; vm_compute; reflexivity. Qed.

Lemma sanitize_char_fixes_key_chars c :
  is_key_char c = true -> sanitize_char c = c.
Proof. destruct c as [[] [] [] [] [] [] [] []]; vm_compute; congruence. Qed.

Lemma sanitizeKey_key_chars (name : string) :
  JS.every_char is_key_char (sanitizeKey name) = true.
Proof.
  induction name as [|c s IH]; [done|].
  rewrite sanitizeKey_cons. simpl. by rewrite sanitize_char_key_char, IH.
Qed.

(** X1.  A sanitized key has the length of the name and consists of the
    characters [a-z], [0-9] and [_] only. *)
Theorem sanitizeKey_alphabet (name : string) :
  JS.every_char is_key_char (sanitizeKey name) = true /\
  String.length (sanitizeKey name) = String.length name.
Proof.
  split; [apply sanitizeKey_key_chars|].
  induction name as [|c s IH]; [done|].
  rewrite sanitizeKey_cons. simpl. by rewrite IH.
Qed.

Lemma sanitizeKey_fixes_keys (s : string) :
  JS.every_char is_key_char s = true -> sanitizeKey s = s.
Proof.
  induction s as [|c s IH]; [done|]. simpl JS.every_char.
  intros [Hc Hs]%andb_true_iff. rewrite sanitizeKey_cons.
  by rewrite sanitize_char_fixes_key_chars, IH.
Qed.

(** X2.  Sanitizing is idempotent: a sanitized key is its own sanitized key. *)
Theorem sanitizeKey_idempotent (name : string) :
  sanitizeKey (sanitizeKey name) = sanitizeKey name.
Proof. apply sanitizeKey_fixes_keys, sanitizeKey_key_chars. Qed.

Lemma prefix_trans (p q s : string) :
  String.prefix p q = true -> String.prefix q s = true -> String.prefix p s = true.
Proof.
  revert q s. induction p as [|a p IH]; intros q s Hpq Hqs; [by destruct s|].
  destruct q as [|b q]; [discriminate|]. destruct s as [|c s]; [discriminate|].
  simpl in *. destruct (ascii_dec a b) as [->|]; [|discriminate].
  destruct (ascii_dec b c) as [->|]; [|discriminate]. eauto.
Qed.

Lemma filter_filter_weaker {A} (f g : A -> bool) (l : list A) :
  (forall x, f x = true -> g x = true) ->
  List.filter f (List.filter g l) = List.filter f l.
Proof.
  intros Hfg. induction l as [|x l IH]; [done|]. simpl.
  destruct (g x) eqn:Hg; simpl.
  - by rewrite IH.
  - destruct (f x) eqn:Hf; [|done]. apply Hfg in Hf. congruence.
Qed.

Section SubscriptionProperties.
Context {Rest : Type}.
Implicit Types (cfg : AdminConfig Rest) (sites : list TVBoxSite) (name : string).

Lemma mergeTVBoxSites_unfold cfg sites name :
  mergeTVBoxSites cfg sites name =
    {| SourceConfig := List.filter (outside name) (SourceConfig cfg) ++ newEntries name sites;
       otherFields := otherFields cfg |}.
Proof. reflexivity. Qed.

Lemma removeTVBoxSites_unfold cfg name :
  removeTVBoxSites cfg name =
    {| SourceConfig := List.filter (outside name) (SourceConfig cfg);
       otherFields := otherFields cfg |}.
Proof. reflexivity. Qed.

Lemma newEntries_inside name sites s :
  In s (newEntries name sites) -> outside name s = false.
Proof.
  intros (site & <- & _)%in_map_iff. unfold outside. simpl.
  by rewrite startsWith_append.
Qed.

Lemma outside_weaker a b s :
  startsWith (keyPrefix (sanitizeKey b)) (keyPrefix (sanitizeKey a)) = true ->
  outside a s = true -> outside b s = true.
Proof.
  unfold outside, startsWith. intros Hab Ha.
  apply negb_true_iff in Ha. apply negb_true_iff. apply not_true_is_false.
  intros Hb. rewrite (prefix_trans _ _ _ Hab Hb) in Ha. discriminate.
Qed.

Lemma merge_shadows cfg sitesA sitesB a b :
  startsWith (keyPrefix (sanitizeKey b)) (keyPrefix (sanitizeKey a)) = true ->
  mergeTVBoxSites (mergeTVBoxSites cfg sitesB b) sitesA a = mergeTVBoxSites cfg sitesA a.
Proof.
  intros Hab. rewrite !mergeTVBoxSites_unfold. cbn [SourceConfig otherFields].
  f_equal. f_equal.
  rewrite filter_app_all_false.
  - apply filter_filter_weaker. intros s. by apply outside_weaker.
  - intros s Hs. apply newEntries_inside in Hs.
    destruct (outside a s) eqn:Ha; [|done].
    apply (outside_weaker a b) in Ha; [congruence|done].
Qed.

Lemma startsWith_refl (p : string) : startsWith p p = true.
Proof. unfold startsWith. induction p as [|c p IH]; [done|]. simpl. by destruct (ascii_dec c c). Qed.

(** X6.  Two subscription names with the same sanitized key share one set of
    entries: a merge under one replaces what a merge under the other added. *)
Theorem merge_same_sanitized_name_replaces cfg sitesA sitesB a b :
  sanitizeKey a = sanitizeKey b ->
  mergeTVBoxSites (mergeTVBoxSites cfg sitesB b) sitesA a = mergeTVBoxSites cfg sitesA a.
Proof. intros Hab. apply merge_shadows. rewrite Hab. apply startsWith_refl. Qed.

Lemma string_app_assoc (a b c : string) :
  ((a ++ b) ++ c)%string = (a ++ (b ++ c))%string.
Proof.
  induction a as [|x a IH]; [done|].
  change (String x ((a ++ b) ++ c) = String x (a ++ (b ++ c)))%string.
  by rewrite IH.
Qed.

Lemma keyPrefix_extends (a' rest : string) :
  startsWith (keyPrefix (a' ++ "_" ++ rest)) (keyPrefix a') = true.
Proof.
  unfold keyPrefix.
  replace ("tvbox_" ++ (a' ++ "_" ++ rest) ++ "_")%string
    with (("tvbox_" ++ a' ++ "_") ++ (rest ++ "_"))%string.
  - apply startsWith_append.
  - by rewrite !string_app_assoc.
Qed.

(** X7.  Subscriptions are not isolated when one sanitized name extends the
    other by [_...]: merging under the shorter name erases everything merged
    under the longer one, as if that merge had never happened. *)
Theorem merge_erases_longer_named_subscription cfg sitesA sitesB a b rest :
  sanitizeKey b = (sanitizeKey a ++ "_" ++ rest)%string ->
  mergeTVBoxSites (mergeTVBoxSites cfg sitesB b) sitesA a = mergeTVBoxSites cfg sitesA a.
Proof. intros Hb. apply merge_shadows. rewrite Hb. apply keyPrefix_extends. Qed.

Lemma remove_after_merge cfg sites name :
  removeTVBoxSites (mergeTVBoxSites cfg sites name) name = removeTVBoxSites cfg name.
Proof.
  rewrite mergeTVBoxSites_unfold, !removeTVBoxSites_unfold. cbn [SourceConfig otherFields].
  f_equal. rewrite filter_app_all_false by apply newEntries_inside.
  apply filter_filter_same.
Qed.

Lemma filter_all_true {A} (f : A -> bool) (l : list A) :
  (forall x, In x l -> f x = true) -> List.filter f l = l.
Proof.
  induction l as [|x l IH]; intros Hall; [done|]. simpl.
  rewrite (Hall x) by (by left). f_equal. apply IH. intros y Hy. apply Hall. by right.
Qed.

(** X5.  Removing a subscription undoes merging it: on a configuration that
    had no entry under the subscription prefix, merge followed by remove
    gives the configuration back. *)
Theorem remove_undoes_merge cfg sites name :
  (forall s, In s (SourceConfig cfg) ->
     startsWith (key s) (keyPrefix (sanitizeKey name)) = false) ->
  removeTVBoxSites (mergeTVBoxSites cfg sites name) name = cfg.
Proof.
  intros Hnone. rewrite remove_after_merge, removeTVBoxSites_unfold.
  rewrite filter_all_true.
  - by destruct cfg.
  - intros s Hs. unfold outside. by rewrite (Hnone s Hs).
Qed.

(** X4.  [removeTVBoxSites] keeps exactly the entries whose key does not start
    with the subscription prefix, in their order; it is idempotent, and it
    is what [mergeTVBoxSites] does with an empty site list. *)
Theorem removeTVBoxSites_complete cfg name :
  (forall s, In s (SourceConfig (removeTVBoxSites cfg name)) <->
     In s (SourceConfig cfg) /\
     startsWith (key s) (keyPrefix (sanitizeKey name)) = false) /\
  sublist (SourceConfig (removeTVBoxSites cfg name)) (SourceConfig cfg) /\
  removeTVBoxSites (removeTVBoxSites cfg name) name = removeTVBoxSites cfg name /\
  mergeTVBoxSites cfg [] name = removeTVBoxSites cfg name.
Proof.
  rewrite !removeTVBoxSites_unfold, mergeTVBoxSites_unfold. cbn [SourceConfig otherFields].
  split; [|split; [|split]].
  - intros s. rewrite filter_In. unfold outside. by rewrite negb_true_iff.
  - induction (SourceConfig cfg) as [|x l IH]; [constructor|]. simpl.
    destruct (outside name x); by constructor.
  - by rewrite filter_filter_same.
  - simpl. by rewrite app_nil_r.
Qed.

Lemma newEntries_keys name sites :
  key <$> newEntries name sites =
    (fun k => (keyPrefix (sanitizeKey name) ++ k)%string) <$> (site_key <$> sites).
Proof.
  unfold newEntries. induction sites as [|x l IH]; [done|].
  cbn [List.map]. rewrite !fmap_cons. f_equal. exact IH.
Qed.

(** X8.  Merging keeps keys unique: if the keys of the configuration are
    pairwise distinct and so are the keys of the sites, the keys after the
    merge are pairwise distinct. *)
Theorem merge_keeps_keys_distinct cfg sites name :
  NoDup (key <$> SourceConfig cfg) ->
  NoDup (site_key <$> sites) ->
  NoDup (key <$> SourceConfig (mergeTVBoxSites cfg sites name)).
Proof.
  intros Hcfg Hsites. rewrite mergeTVBoxSites_unfold. cbn [SourceConfig].
  rewrite fmap_app. apply NoDup_app. split; [|split].
  - clear Hsites. induction (SourceConfig cfg) as [|x l IH]; [constructor|].
    simpl in *. apply NoDup_cons in Hcfg as [Hx Hl].
    destruct (outside name x); [|by apply IH].
    simpl. apply NoDup_cons. split; [|by apply IH].
    intros (y & Hk & Hy)%list_elem_of_fmap. apply Hx.
    apply list_elem_of_fmap. exists y. split; [done|].
    apply list_elem_of_In. apply list_elem_of_In in Hy.
    by apply filter_In in Hy as [? _].
  - intros k (x & -> & Hx)%list_elem_of_fmap (y & Hk & Hy)%list_elem_of_fmap.
    apply list_elem_of_In, filter_In in Hx as [_ Hout].
    apply list_elem_of_In, newEntries_inside in Hy.
    unfold outside in *. rewrite Hk in Hout. congruence.
  - rewrite newEntries_keys. apply (NoDup_fmap_2 _). exact Hsites.
Qed.


(** X3.  [parseTVBoxSites] returns exactly the sites of type 1, in their
    order and as often as they occur: the result is a sublist of [sites] in
    which every site has type 1, and it is all of [sites] but for sites of
    another type.  It returns nothing when [sites] is missing, and parsing
    its own result again changes nothing. *)
Theorem parseTVBoxSites_only_json_sites (config : TVBoxJson) :
  (forall site, In site (parseTVBoxSites config) <->
     exists l, sites config = Some l /\ In site l /\ site_type site = 1) /\
  (forall l, sites config = Some l ->
     sublist (parseTVBoxSites config) l /\
     Forall (fun site => site_type site = 1) (parseTVBoxSites config) /\
     exists dropped,
       parseTVBoxSites config ++ dropped ≡ₚ l /\
       Forall (fun site => site_type site <> 1) dropped) /\
  (sites config = None -> parseTVBoxSites config = []) /\
  parseTVBoxSites {| spider := spider config; wallpaper := wallpaper config;
                     sites := Some (parseTVBoxSites config) |} =
    parseTVBoxSites config.
Proof.
  unfold parseTVBoxSites. destruct (sites config) as [l|]; simpl.
  - split; [|split; [|split]].
    + intros site. rewrite filter_In, Z.eqb_eq. split.
      * intros [Hin Ht]. by exists l.
      * intros (l' & [= <-] & Hin & Ht). done.
    + intros l' [= <-]. split; [|split].
      * induction l as [|x l IH]; [constructor|]. simpl.
        destruct (site_type x =? 1); by constructor.
      * apply Forall_forall. intros site Hin%list_elem_of_In.
        apply filter_In in Hin as [_ Ht]. by apply Z.eqb_eq.
      * induction l as [|x l (dropped & Hperm & Hall)]; [by exists []|]. simpl.
        destruct (Z.eqb_spec (site_type x) 1) as [Ht|Ht].
        -- exists dropped. split; [|done]. simpl. by constructor.
        -- exists (x :: dropped). split; [|by constructor].
           rewrite <- Permutation_middle. by constructor.
    + discriminate.
    + apply filter_filter_same.
  - split; [|done]. intros site. split; [done|]. by intros (l & ? & _).
Qed.

End SubscriptionProperties.

Lemma merge_same_sanitized_name_replaces_witness :
  sanitizeKey "My Sub" = sanitizeKey "my-sub" /\
  mergeTVBoxSites (mergeTVBoxSites exampleConfig [exampleSite "k1"] "my-sub")
    [exampleSite "k2"] "My Sub" =
  mergeTVBoxSites exampleConfig [exampleSite "k2"] "My Sub".
Proof.
  split; [reflexivity|].
  apply (merge_same_sanitized_name_replaces exampleConfig). reflexivity.
Defined.

Lemma merge_erases_longer_named_subscription_witness :
  sanitizeKey "my sub" = (sanitizeKey "my" ++ "_" ++ "sub")%string /\
  mergeTVBoxSites (mergeTVBoxSites exampleConfig [exampleSite "k1"] "my sub")
    [exampleSite "k2"] "my" =
  mergeTVBoxSites exampleConfig [exampleSite "k2"] "my".
Proof.
  split; [reflexivity|].
  apply (merge_erases_longer_named_subscription exampleConfig _ _ "my" "my sub" "sub").
  reflexivity.
Defined.

Lemma remove_undoes_merge_witness :
  removeTVBoxSites (mergeTVBoxSites exampleConfig [exampleSite "k1"] "my sub") "my sub"
    = exampleConfig.
Proof.
  apply (remove_undoes_merge exampleConfig).
  intros s [<-|[]]. reflexivity.
Defined.

Lemma merge_keeps_keys_distinct_witness :
  NoDup (key <$> SourceConfig
           (mergeTVBoxSites exampleConfig [exampleSite "k1"; exampleSite "k2"] "my sub")).
Proof.
  apply (merge_keeps_keys_distinct exampleConfig).
  - apply NoDup_singleton.
  - apply NoDup_cons. split; [|apply NoDup_singleton].
    intros Hin%list_elem_of_singleton. discriminate.
Defined.

End TVBox.

(* ===================================================================== *)
(** ** The grid's use of the preload hook *)
(* ===================================================================== *)

Module GridPreload.
Import ImagePreload.
Local Open Scope list_scope.

Section Posters.
Context {T : Type}.

(** The [poster] field of an item ([poster?: string]). *)
Variable poster : T -> option string.

(** [item.poster || ''] *)
Definition posterOrEmpty (item : T) : string := default ""%string (poster item).

(** [items.map((item) => item.poster || '').filter(Boolean)] *)
Definition imageUrls (items : list T) : list string :=
  List.filter (fun url => negb (bool_decide (url = ""%string)))
    (List.map posterOrEmpty items).




(** X19.  Every URL the grid selects for preloading is the poster of one of
    its items. *)
Theorem preload_candidates_are_posters (items : list T) (priorityCount : Z) (u : string) :
  u ∈ urlsToPreload (imageUrls items) priorityCount ->
  exists item, item ∈ items /\ poster item = Some u.
Proof.
  unfold urlsToPreload. rewrite list_elem_of_In, filter_In.
  intros [Hin _]. apply list_elem_of_In in Hin.
  assert (Hu : u ∈ imageUrls items).
  { unfold JS.slice0 in Hin.
    destruct (_ <? 0); eapply elem_of_sublist; eauto using sublist_take. }
  unfold imageUrls in Hu. apply list_elem_of_In, filter_In in Hu as [Hmap Hne].
  apply in_map_iff in Hmap as (item & Hp & Hitem).
  exists item. split; [by apply list_elem_of_In|].
  unfold posterOrEmpty in Hp. destruct (poster item) as [p|]; simpl in Hp; [by subst|].
  subst u. done.
Qed.

End Posters.


Lemma preload_candidates_are_posters_witness :
  let poster (item : option string) := item in
  exists item, item ∈ [None; Some "a"; Some "b"]%string /\ poster item = Some "b"%string.
Proof.
  intros poster.
  apply (preload_candidates_are_posters poster [None; Some "a"; Some "b"]%string 12).
  vm_compute. right. left.
Defined.

End GridPreload.

(* ===================================================================== *)
(** ** useSourceFilter *)
(* ===================================================================== *)

Module SourceFilter.
Local Open Scope list_scope.

(** In this module a string is the UTF-8 encoding of the JavaScript string.
    On well-formed strings [includes], [startsWith], [endsWith] and
    concatenation of the encodings agree with the JavaScript operations, and
    [encodeURIComponent] escapes byte by byte. *)

Record SourceCategory : Type := mkCategory {
  type_id : string + Z;
  type_name : string;
  type_pid : option (string + Z);
}.

(** [CONTENT_TYPE_KEYWORDS[contentType] || []] *)
Definition CONTENT_TYPE_KEYWORDS (contentType : string) : list string :=
  if bool_decide (contentType = "movie"%string) then
    ["电影"; "影片"; "大片"; "院线"; "4K"; "蓝光"; "片"]%string
  else if bool_decide (contentType = "tv"%string) then
    ["电视剧"; "剧集"; "连续剧"; "国产剧"; "美剧"; "韩剧"; "日剧"; "港剧"; "剧"]%string
  else if bool_decide (contentType = "anime"%string) then
    ["动漫"; "动画"; "番剧"; "动画片"; "卡通"; "漫画"]%string
  else if bool_decide (contentType = "show"%string) then
    ["综艺"; "真人秀"; "脱口秀"; "晚会"; "纪录片"]%string
  else [].

(** [s.startsWith(p)] *)
Definition startsWith (s p : string) : bool := String.prefix p s.

(** [s.includes(sub)] *)
Fixpoint includes (s sub : string) : bool :=
  startsWith s sub ||
  match s with
  | EmptyString => false
  | String _ s' => includes s' sub
  end.

(** [s.endsWith(suffix)] *)
Fixpoint endsWith (s suffix : string) : bool :=
  bool_decide (s = suffix) ||
  match s with
  | EmptyString => false
  | String _ s' => endsWith s' suffix
  end.

Section GetFilteredCategories.

(** [String.prototype.toLowerCase], which the sources do not define. *)
Variable toLowerCase : string -> string.

Definition matches_keywords (keywords : list string) (cat : SourceCategory) : bool :=
  let name := toLowerCase (type_name cat) in
  existsb (fun keyword => includes name (toLowerCase keyword)) keywords.

Definition matches_fallback (cat : SourceCategory) : bool :=
  let name := type_name cat in
  includes name "片" || includes name "剧" || includes name "漫".

(** [getFilteredCategories(contentType)] for the current [sourceCategories]. *)
Definition getFilteredCategories (sourceCategories : list SourceCategory)
    (contentType : string) : list SourceCategory :=
  if JS.length sourceCategories =? 0 then []
  else
    let keywords := CONTENT_TYPE_KEYWORDS contentType in
    let filtered := List.filter (matches_keywords keywords) sourceCategories in
    let filtered :=
      if JS.length filtered =? 0
      then List.filter matches_fallback sourceCategories
      else filtered in
    if JS.length filtered =? 0 then JS.slice0 sourceCategories 15
    else filtered.

End GetFilteredCategories.

(** *** The request for the categories *)

(** The characters [encodeURIComponent] leaves alone:
    [A-Z a-z 0-9 - _ . ! ~ * ' ( )]. *)
Definition is_unreserved (c : ascii) : bool :=
  let n := nat_of_ascii c in
  ((48 <=? n) && (n <=? 57) || (65 <=? n) && (n <=? 90)
   || (97 <=? n) && (n <=? 122)
   || (n =? 45) || (n =? 95) || (n =? 46) || (n =? 33) || (n =? 126)
   || (n =? 42) || (n =? 39) || (n =? 40) || (n =? 41))%nat.

Definition hex_digit (n : nat) : ascii :=
  ascii_of_nat (if (n <? 10)%nat then 48 + n else 55 + n).

Definition encode_byte (c : ascii) : string :=
  if is_unreserved c then String c EmptyString
  else
    let n := nat_of_ascii c in
    String "%" (String (hex_digit (n / 16)) (String (hex_digit (n mod 16)) EmptyString)).

(** [encodeURIComponent(s)] on the UTF-8 encoding of a well-formed string. *)
Fixpoint encodeURIComponent (s : string) : string :=
  match s with
  | EmptyString => EmptyString
  | String c s' => (encode_byte c ++ encodeURIComponent s')%string
  end.

(** [originalApiUrl] *)
Definition categoriesApiUrl (api : string) : string :=
  if endsWith api "/" then (api ++ "?ac=class")%string
  else (api ++ "/?ac=class")%string.

(** [isExternalUrl] *)
Definition isExternalUrl (url : string) : bool :=
  startsWith url "http://" || startsWith url "https://".

(** [fetchUrl]: the URL [fetchSourceCategories] requests for a source whose
    [api] is given. *)
Definition categoriesFetchUrl (api : string) : string :=
  let originalApiUrl := categoriesApiUrl api in
  let proxyUrl := ("/api/proxy/cms?url=" ++ encodeURIComponent originalApiUrl)%string in
  if isExternalUrl originalApiUrl then proxyUrl else originalApiUrl.

(** The characters of an encoded component: unreserved ones, [%] and the
    hexadecimal digits. *)
Definition is_encoded_char (c : ascii) : bool :=
  is_unreserved c || bool_decide (c = "%"%char).

(** *** The state of the hook and its updates *)

(** An entry of [sources] ([ApiSite], declared in lib/config): the fields the
    hook reads. *)
Record ApiSite : Type := mkApiSite {
  key : string;
  api : string;
  name : string;
}.

(** A value caught by [catch (err)]: an [Error] with its message, or
    something that is not an [Error]. *)
Inductive Thrown : Type :=
| ErrorObject (message : string)
| NotAnError.

(** How [await fetch(...)] followed by [await response.json()] ends: the
    request is rejected, or a response arrives with its [ok] flag and, when
    its body is read, either a parse failure or the parsed value. *)
Inductive FetchResult (A : Type) : Type :=
| FetchRejected (err : Thrown)
| Response (ok : bool) (json : Thrown + A).
Arguments FetchRejected {A} err.
Arguments Response {A} ok json.

(** The state of the hook. *)
Record HookState : Type := mkHookState {
  sources : list ApiSite;
  currentSource : string;
  sourceCategories : list SourceCategory;
  isLoadingSources : bool;
  isLoadingCategories : bool;
  error : option string;
}.

(** A call of one of the state setters. *)
Inductive Update : Type :=
| SetSources (data : list ApiSite)
| SetCurrentSourceState (sourceKey : string)
| SetSourceCategories (categories : list SourceCategory)
| SetIsLoadingSources (b : bool)
| SetIsLoadingCategories (b : bool)
| SetError (e : option string).

Definition apply_update (st : HookState) (u : Update) : HookState :=
  match u with
  | SetSources data =>
      mkHookState data (currentSource st) (sourceCategories st)
        (isLoadingSources st) (isLoadingCategories st) (error st)
  | SetCurrentSourceState k =>
      mkHookState (sources st) k (sourceCategories st)
        (isLoadingSources st) (isLoadingCategories st) (error st)
  | SetSourceCategories c =>
      mkHookState (sources st) (currentSource st) c
        (isLoadingSources st) (isLoadingCategories st) (error st)
  | SetIsLoadingSources b =>
      mkHookState (sources st) (currentSource st) (sourceCategories st)
        b (isLoadingCategories st) (error st)
  | SetIsLoadingCategories b =>
      mkHookState (sources st) (currentSource st) (sourceCategories st)
        (isLoadingSources st) b (error st)
  | SetError e =>
      mkHookState (sources st) (currentSource st) (sourceCategories st)
        (isLoadingSources st) (isLoadingCategories st) e
  end.

(** The state after the setter calls of one run, when no other update
    comes in between. *)
Definition apply_updates (st : HookState) (us : list Update) : HookState :=
  foldl apply_update st us.

(** [err instanceof Error ? err.message : fallback] *)
Definition error_message (err : Thrown) (fallback : string) : string :=
  match err with ErrorObject m => m | NotAnError => fallback end.

(** One run of [fetchSourceCategories(sourceKey)] with [sources] as captured
    by the callback: the URLs it requests and the setter calls it makes, in
    order.  [fetch] tells how the request for a URL ends; the parsed body is
    [data.class]. *)
Definition fetchSourceCategories (sources : list ApiSite) (sourceKey : string)
    (fetch : string -> FetchResult (option (list SourceCategory)))
  : list string * list Update :=
  if bool_decide (sourceKey = "auto"%string) then ([], [SetSourceCategories []])
  else
    let start := [SetIsLoadingCategories true; SetError None] in
    let caught err :=
      [SetError (Some (error_message err "获取分类失败")); SetSourceCategories []] in
    let finally := [SetIsLoadingCategories false] in
    match List.find (fun s => bool_decide (key s = sourceKey)) sources with
    | None => ([], start ++ caught (ErrorObject "未找到指定的数据源") ++ finally)
    | Some source =>
        let fetchUrl := categoriesFetchUrl (api source) in
        match fetch fetchUrl with
        | FetchRejected err => ([fetchUrl], start ++ caught err ++ finally)
        | Response false _ =>
            ([fetchUrl], start ++ caught (ErrorObject "获取分类列表失败") ++ finally)
        | Response true (inl err) => ([fetchUrl], start ++ caught err ++ finally)
        | Response true (inr class) =>
            ([fetchUrl], start ++ [SetSourceCategories (default [] class)] ++ finally)
        end
    end.

(** One run of [setCurrentSource(sourceKey)]. *)
Definition setCurrentSource (sources : list ApiSite) (sourceKey : string)
    (fetch : string -> FetchResult (option (list SourceCategory)))
  : list string * list Update :=
  if negb (bool_decide (sourceKey = "auto"%string)) then
    let '(requests, updates) := fetchSourceCategories sources sourceKey fetch in
    (requests, SetCurrentSourceState sourceKey :: updates)
  else ([], [SetCurrentSourceState sourceKey; SetSourceCategories []]).

(** One run of [fetchSources()]: the request goes to [/api/search/resources]. *)
Definition fetchSources (fetch : string -> FetchResult (list ApiSite))
  : list string * list Update :=
  let start := [SetIsLoadingSources true; SetError None] in
  let caught err := [SetError (Some (error_message err "未知错误"))] in
  let finally := [SetIsLoadingSources false] in
  let url := "/api/search/resources"%string in
  match fetch url with
  | FetchRejected err => ([url], start ++ caught err ++ finally)
  | Response false _ => ([url], start ++ caught (ErrorObject "获取数据源列表失败") ++ finally)
  | Response true (inl err) => ([url], start ++ caught err ++ finally)
  | Response true (inr data) => ([url], start ++ [SetSources data] ++ finally)
  end.

(** *** Properties of the category filter *)

Lemma length_zero {A} (l : list A) : (JS.length l =? 0) = true <-> l = [].
Proof.
  unfold JS.length. rewrite Z.eqb_eq. destruct l; simpl; [done|].
  split; [lia|discriminate].
Qed.

Lemma length_zero_false {A} (l : list A) : (JS.length l =? 0) = false <-> l <> [].
Proof. rewrite <- length_zero. by destruct (JS.length l =? 0). Qed.

Lemma slice0_nonneg {A} (l : list A) (n : Z) : 0 <= n -> JS.slice0 l n = take (Z.to_nat n) l.
Proof. intros Hn. unfold JS.slice0. by destruct (Z.ltb_spec n 0); [lia|]. Qed.

Lemma filter_sublist {A} (f : A -> bool) (l : list A) : sublist (List.filter f l) l.
Proof.
  induction l as [|x l IH]; [constructor|]. simpl.
  destruct (f x); by constructor.
Qed.

Lemma filter_nil_all_false {A} (f : A -> bool) (l : list A) :
  List.filter f l = [] <-> forall x, In x l -> f x = false.
Proof.
  induction l as [|x l IH]; [by split|]. simpl.
  destruct (f x) eqn:Hx.
  - split; [discriminate|]. intros Hall. rewrite (Hall x) in Hx by (by left). discriminate.
  - rewrite IH. split; [intros Hl y [->|Hy]; auto|intros Hall y Hy; apply Hall; by right].
Qed.

Lemma filter_nil_sublist {A} (f : A -> bool) (l k : list A) :
  sublist k l -> List.filter f l = [] -> List.filter f k = [].
Proof.
  intros Hsub. rewrite !filter_nil_all_false. intros Hall x Hx.
  apply Hall, list_elem_of_In. eapply elem_of_sublist; [|exact Hsub].
  by apply list_elem_of_In.
Qed.

Section GetFilteredCategoriesProperties.
Variable toLowerCase : string -> string.
Implicit Types (cats : list SourceCategory) (contentType : string).

Inductive FilterCase cats contentType : list SourceCategory -> Prop :=
| case_empty : cats = [] -> FilterCase cats contentType []
| case_keywords :
    List.filter (matches_keywords toLowerCase (CONTENT_TYPE_KEYWORDS contentType)) cats <> [] ->
    FilterCase cats contentType
      (List.filter (matches_keywords toLowerCase (CONTENT_TYPE_KEYWORDS contentType)) cats)
| case_fallback :
    List.filter (matches_keywords toLowerCase (CONTENT_TYPE_KEYWORDS contentType)) cats = [] ->
    List.filter matches_fallback cats <> [] ->
    FilterCase cats contentType (List.filter matches_fallback cats)
| case_first15 :
    cats <> [] ->
    List.filter (matches_keywords toLowerCase (CONTENT_TYPE_KEYWORDS contentType)) cats = [] ->
    List.filter matches_fallback cats = [] ->
    FilterCase cats contentType (take 15 cats).

Lemma getFilteredCategories_cases cats contentType :
  FilterCase cats contentType (getFilteredCategories toLowerCase cats contentType).
Proof.
  unfold getFilteredCategories.
  destruct (JS.length cats =? 0) eqn:Hc.
  { apply length_zero in Hc. by constructor. }
  apply length_zero_false in Hc.
  set (K := List.filter _ cats).
  destruct (JS.length K =? 0) eqn:HK.
  - apply length_zero in HK.
    destruct (JS.length (List.filter matches_fallback cats) =? 0) eqn:HF.
    + apply length_zero in HF. rewrite slice0_nonneg by lia. by apply case_first15.
    + apply length_zero_false in HF. by apply case_fallback.
  - rewrite HK. apply length_zero_false in HK. by apply case_keywords.
Qed.

(** X20.  [getFilteredCategories] returns an empty list only when the source
    has no categories: the fallbacks always leave something to choose. *)
Theorem getFilteredCategories_never_empty cats contentType :
  getFilteredCategories toLowerCase cats contentType = [] <-> cats = [].
Proof.
  destruct (getFilteredCategories_cases cats contentType) as [Hc|HK|HK HF|Hc HK HF].
  - done.
  - split; [done|]. intros ->. done.
  - split; [done|]. intros ->. done.
  - split; [|by intros ->]. destruct cats; [done|discriminate].
Qed.

(** X21.  The result is a sub-list of the categories of the source, in their
    order: nothing is invented, duplicated or reordered. *)
Theorem getFilteredCategories_sublist cats contentType :
  sublist (getFilteredCategories toLowerCase cats contentType) cats /\
  (length (getFilteredCategories toLowerCase cats contentType) <= length cats)%nat.
Proof.
  assert (Hsub : sublist (getFilteredCategories toLowerCase cats contentType) cats).
  { destruct (getFilteredCategories_cases cats contentType);
      [apply sublist_nil_l|apply filter_sublist..|apply sublist_take]. }
  split; [exact Hsub|by apply sublist_length].
Qed.

(** X22.  Filtering the result again, for the same content type, gives the
    same result. *)
Theorem getFilteredCategories_idempotent cats contentType :
  getFilteredCategories toLowerCase
    (getFilteredCategories toLowerCase cats contentType) contentType =
  getFilteredCategories toLowerCase cats contentType.
Proof.
  destruct (getFilteredCategories_cases cats contentType) as [Hc|HK|HK HF|Hc HK HF].
  - reflexivity.
  - set (R := List.filter _ cats) in *.
    destruct (getFilteredCategories_cases R contentType) as [Hc'|HK'|HK' HF'|Hc' HK' HF'].
    + done.
    + apply TVBox.filter_filter_same.
    + unfold R in HK'. rewrite TVBox.filter_filter_same in HK'. done.
    + unfold R in HK'. rewrite TVBox.filter_filter_same in HK'. done.
  - set (R := List.filter matches_fallback cats) in *.
    assert (HKR : List.filter (matches_keywords toLowerCase
                     (CONTENT_TYPE_KEYWORDS contentType)) R = []).
    { eapply filter_nil_sublist; [apply filter_sublist|exact HK]. }
    destruct (getFilteredCategories_cases R contentType) as [Hc'|HK'|HK' HF'|Hc' HK' HF'].
    + done.
    + done.
    + apply TVBox.filter_filter_same.
    + unfold R in HF'. rewrite TVBox.filter_filter_same in HF'. done.
  - set (R := take 15 cats) in *.
    assert (HKR : List.filter (matches_keywords toLowerCase
                     (CONTENT_TYPE_KEYWORDS contentType)) R = []).
    { eapply filter_nil_sublist; [apply sublist_take|exact HK]. }
    assert (HFR : List.filter matches_fallback R = []).
    { eapply filter_nil_sublist; [apply sublist_take|exact HF]. }
    destruct (getFilteredCategories_cases R contentType) as [Hc'|HK'|HK' HF'|Hc' HK' HF'].
    + done.
    + done.
    + done.
    + unfold R. rewrite take_take. f_equal.
Qed.

End GetFilteredCategoriesProperties.

(** *** Properties of the request *)

Lemma string_app_cons (c : ascii) (s t : string) :
  (String c s ++ t)%string = String c (s ++ t)%string.
Proof. reflexivity. Qed.

Lemma endsWith_app (a suffix : string) : endsWith (a ++ suffix)%string suffix = true.
Proof.
  induction a as [|c a IH].
  - change (("" ++ suffix)%string) with suffix.
    destruct suffix; cbn [endsWith]; by rewrite bool_decide_eq_true_2.
  - rewrite string_app_cons. cbn [endsWith]. rewrite IH. apply orb_true_r.
Qed.

Lemma startsWith_app (s p t : string) :
  startsWith s p = true -> startsWith (s ++ t)%string p = true.
Proof.
  unfold startsWith. revert s. induction p as [|c p IH]; intros s; [by destruct (s ++ t)%string|].
  destruct s as [|d s]; [discriminate|]. rewrite string_app_cons. simpl.
  destruct (ascii_dec c d); [apply IH|discriminate].
Qed.

(** X23.  The category URL always ends with [/?ac=class], and an [api] with
    and without a trailing slash gives the same URL. *)
Theorem categoriesApiUrl_normalises_slash (api : string) :
  endsWith (categoriesApiUrl api) "/?ac=class" = true /\
  (endsWith api "/" = false -> categoriesApiUrl (api ++ "/") = categoriesApiUrl api).
Proof.
  split.
  - unfold categoriesApiUrl. destruct (endsWith api "/") eqn:Hs.
    + assert (exists a, api = (a ++ "/")%string) as [a ->].
      { clear -Hs. induction api as [|c api IH]; cbn [endsWith] in Hs.
        - rewrite bool_decide_eq_false_2 in Hs by done. discriminate.
        - apply orb_true_iff in Hs as [Heq|Hs].
          + apply bool_decide_eq_true in Heq. exists ""%string. done.
          + destruct (IH Hs) as [a ->]. exists (String c a). done. }
      rewrite TVBox.string_app_assoc. apply endsWith_app.
    + apply endsWith_app.
  - intros Hs. unfold categoriesApiUrl. rewrite endsWith_app, Hs.
    by rewrite TVBox.string_app_assoc.
Qed.

Lemma every_char_app p (s t : string) :
  JS.every_char p (s ++ t)%string = JS.every_char p s && JS.every_char p t.
Proof. induction s as [|c s IH]; [done|]. rewrite string_app_cons. simpl. by rewrite IH, andb_assoc. Qed.

Lemma encode_byte_chars c : JS.every_char is_encoded_char (encode_byte c) = true.
Proof. destruct c as [[] [] [] [] [] [] [] []]; vm_compute; reflexivity. Qed.

Lemma encodeURIComponent_chars (s : string) :
  JS.every_char is_encoded_char (encodeURIComponent s) = true.
Proof.
  induction s as [|c s IH]; [done|]. simpl.
  by rewrite every_char_app, encode_byte_chars, IH.
Qed.

(** X24.  An external category URL is requested through the proxy, with the
    URL as one query value made of unreserved characters and percent
    escapes only; any other URL is requested as it is.  An [api] that starts
    with [http://] or [https://] is external. *)
Theorem categoriesFetchUrl_routing (api : string) :
  (isExternalUrl (categoriesApiUrl api) = true ->
     exists q, categoriesFetchUrl api = ("/api/proxy/cms?url=" ++ q)%string /\
       q = encodeURIComponent (categoriesApiUrl api) /\
       JS.every_char is_encoded_char q = true) /\
  (isExternalUrl (categoriesApiUrl api) = false ->
     categoriesFetchUrl api = categoriesApiUrl api) /\
  (startsWith api "http://" = true \/ startsWith api "https://" = true ->
     isExternalUrl (categoriesApiUrl api) = true).
Proof.
  unfold categoriesFetchUrl. split; [|split].
  - intros ->. eexists. split; [reflexivity|]. split; [reflexivity|].
    apply encodeURIComponent_chars.
  - by intros ->.
  - intros H. unfold isExternalUrl, categoriesApiUrl. apply orb_true_iff.
    destruct (endsWith api "/"); destruct H as [H|H]; auto using startsWith_app.
Qed.

(** *** Properties of the updates *)

(** X25.  After the setter calls of [setCurrentSource] are applied:
    [currentSource] is the key, the source list is untouched and at most one
    request was made.  For [auto] the categories are cleared and nothing is
    requested; for any other key the loading flag ends [false] and either
    there is no error or the categories are empty, so that after a failure
    [getFilteredCategories] returns nothing. *)
Theorem setCurrentSource_outcome st sourceKey fetch :
  let run := setCurrentSource (sources st) sourceKey fetch in
  let st' := apply_updates st run.2 in
  currentSource st' = sourceKey /\
  sources st' = sources st /\
  (length run.1 <= 1)%nat /\
  (sourceKey = "auto"%string ->
     run.1 = [] /\ sourceCategories st' = [] /\ error st' = error st /\
     isLoadingCategories st' = isLoadingCategories st) /\
  (sourceKey <> "auto"%string ->
     isLoadingCategories st' = false /\
     (error st' = None \/ sourceCategories st' = []) /\
     (forall toLowerCase contentType, error st' <> None ->
        getFilteredCategories toLowerCase (sourceCategories st') contentType = [])).
Proof.
  intros run st'. subst st' run. unfold setCurrentSource, fetchSourceCategories.
  destruct (bool_decide_reflect (sourceKey = "auto"%string)) as [->|Hne]; simpl.
  { repeat split; auto. intros; done. }
  destruct (List.find _ _) as [source|]; simpl.
  - destruct (fetch _) as [err|[] [err|class]]; simpl;
      (split; [done|]); (split; [done|]); (split; [lia|]);
      (split; [done|]); intros _; (split; [done|]); (split; [auto|]);
      intros; try done.
  - split; [done|]. split; [done|]. split; [lia|]. split; [done|].
    intros _. split; [done|]. split; [auto|]. done.
Qed.

Lemma find_none_iff (sources : list ApiSite) (sourceKey : string) :
  List.find (fun s => bool_decide (key s = sourceKey)) sources = None <->
  forall s, In s sources -> key s <> sourceKey.
Proof.
  induction sources as [|x l IH]; simpl; [by split|].
  destruct (bool_decide_reflect (key x = sourceKey)) as [Heq|Hne].
  - split; [discriminate|]. intros Hall. by destruct (Hall x (or_introl eq_refl)).
  - rewrite IH. split; [intros Hl s [<-|Hs]; auto|intros Hall s Hs; apply Hall; by right].
Qed.

(** X26.  For a key that no source has, [fetchSourceCategories] makes no
    request, reports that the source was not found and clears the
    categories. *)
Theorem fetchSourceCategories_unknown_source st sourceKey fetch :
  sourceKey <> "auto"%string ->
  (forall s, In s (sources st) -> key s <> sourceKey) ->
  let run := fetchSourceCategories (sources st) sourceKey fetch in
  let st' := apply_updates st run.2 in
  run.1 = [] /\
  error st' = Some "未找到指定的数据源"%string /\
  sourceCategories st' = [] /\
  isLoadingCategories st' = false.
Proof.
  intros Hne Hnone run st'. subst st' run. unfold fetchSourceCategories.
  rewrite bool_decide_eq_false_2 by done.
  rewrite (proj2 (find_none_iff (sources st) sourceKey) Hnone). done.
Qed.

Lemma fetchSourceCategories_unknown_source_witness :
  let st := {| sources := [ {| key := "s1"; api := "https://s1.example/api"; name := "S1" |} ];
               currentSource := "auto"; sourceCategories := [];
               isLoadingSources := false; isLoadingCategories := false;
               error := None |} in
  (fetchSourceCategories (sources st) "s2" (fun _ => FetchRejected NotAnError)).1 = [].
Proof.
  intros st.
  apply (fetchSourceCategories_unknown_source st "s2" (fun _ => FetchRejected NotAnError)).
  - discriminate.
  - intros s [<-|[]]. discriminate.
Defined.

(** X27.  [fetchSources] requests [/api/search/resources] once and ends with
    the loading flag [false]; on success the sources are the response and
    the error is cleared, on any failure the previous sources are kept and
    an error is set. *)
Theorem fetchSources_outcome st fetch :
  let run := fetchSources fetch in
  let st' := apply_updates st run.2 in
  run.1 = ["/api/search/resources"%string] /\
  isLoadingSources st' = false /\
  sourceCategories st' = sourceCategories st /\
  currentSource st' = currentSource st /\
  match fetch "/api/search/resources"%string with
  | Response true (inr data) => sources st' = data /\ error st' = None
  | _ => sources st' = sources st /\ is_Some (error st')
  end.
Proof.
  intros run st'. subst st' run. unfold fetchSources.
  destruct (fetch _) as [err|[] [err|data]]; simpl; repeat split; eauto.
Qed.

End SourceFilter.
